(** * A shallow embedding of [generator/generator.py] (class [BankDataGenerator])

    The generator keeps an in-process cache ([self.users], [self.accounts],
    ...) next to a PostgreSQL store that it reaches through [get_cursor],
    a context manager that commits when its block ends normally and rolls
    back when the block raises.  The embedding keeps the two apart: the
    in-process state is never undone, the store is.

    Modelling conventions.
    - Money.  Balances are SQL NUMERIC values with two decimals and are
      represented exactly, as an integer number of hundredths ([Z]):
      [100.00] is [10000].  The amounts of [generate_transaction] are
      Python floats; an amount is named by the decimal it stands for,
      again in hundredths, which is what the store keeps of it.  Where
      the code computes with the float itself (the sum of line 223, the
      product of line 247, the comparison of line 250) the computation
      is the one of IEEE 754 binary64, taken from the standard library's
      specification of it ([SpecFloat], precision 53, [emax] 1024).
    - Randomness.  Every [random.*] call of an operation is an input of
      that operation (a record of draws).
    - Store errors.  Each [cur.execute] may raise; which statements do is
      an input too ([faulty]).
    - Every table with a key the code selects on ([bank_account_id],
      [payment_system_id], the pair of [user_achievements]) is a finite
      map or set on that key. *)

From Stdlib Require Import ZArith QArith Qround String Ascii List Lia Lqa.
From Stdlib Require Import Decimal DecimalString DecimalPos DecimalN Sorted.
From Stdlib Require Import SpecFloat Qpower.
From stdpp Require Import base option list strings gmap.

Local Open Scope Z_scope.
Local Open Scope string_scope.

(** ** Results of running Python code *)

(** [Ok v]: the block ran to its end (or to a [return]) with value [v];
    [Raise]: an exception is propagating; [Hang]: the resampling loop of
    [generate_transaction] used up every draw it was given and is still
    running. *)
Inductive result (A : Type) : Type :=
  | Ok (v : A)
  | Raise
  | Hang.
Arguments Ok {A} v.
Arguments Raise {A}.
Arguments Hang {A}.

(** ** Data model *)

Inductive status := completed | failed.

(** A row of [self.accounts] (a [RealDictRow]).  [owner_id] is selected
    by [initialize_cache] but not returned by the INSERT of
    [create_account]; a NULL or absent [currency] is [None]. *)
Record account := Account {
  bank_account_id : Z;
  owner_id : option Z;
  balance : Z;
  currency : option string;
  account_number : string
}.

Definition set_balance (b : Z) (a : account) : account :=
  {| bank_account_id := bank_account_id a; owner_id := owner_id a;
     balance := b; currency := currency a;
     account_number := account_number a |}.

(** Rows of the store's tables, with the columns the code writes. *)
Record bank_account_row := BankAccountRow {
  ba_account_number : string;
  ba_balance : Z;
  ba_payment_system : string;
  ba_currency : option string;
  ba_owner_id : Z
}.

Record transaction_row := TransactionRow {
  tx_sender_account_id : option Z;
  tx_receiver_account_id : Z;
  tx_amount : Z;
  tx_converted_amount : Z;
  tx_description : string;
  tx_type_id : Z;
  tx_status : status
}.

Record scheduled_transfer_row := ScheduledTransferRow {
  st_sender_account_id : Z;
  st_receiver_account_id : Z;
  st_amount : Z;
  st_description : string;
  st_frequency : string;
  st_start_date : Z;
  st_next_occurrence_date : Z;
  st_end_date : Z
}.

(** [min_balance] is [balance * 0.5]: it has three decimals, and is kept
    in thousandths. *)
Record saving_account_row := SavingAccountRow {
  sa_bank_account_id : Z;
  sa_goal_amount : Z;
  sa_goal_name : string;
  sa_min_balance_thousandths : Z;
  sa_interest_rate : Z;
  sa_next_interest_date : Z
}.

(** The store.  [db_payment_system] maps [payment_system_id] to
    [last_number]; [db_achievements] lists [(achievement_id, name)]. *)
Record db := Db {
  db_users : gset Z;
  db_bank_accounts : gmap Z bank_account_row;
  db_user_bank_accounts : list (Z * Z);
  db_payment_system : gmap Z Z;
  db_transactions : list transaction_row;
  db_scheduled_transfers : list scheduled_transfer_row;
  db_saving_accounts : list saving_account_row;
  db_achievements : list (Z * string);
  db_user_achievements : gset (Z * Z)
}.

Definition with_bank_accounts (m : gmap Z bank_account_row) (d : db) : db :=
  {| db_users := db_users d; db_bank_accounts := m;
     db_user_bank_accounts := db_user_bank_accounts d;
     db_payment_system := db_payment_system d;
     db_transactions := db_transactions d;
     db_scheduled_transfers := db_scheduled_transfers d;
     db_saving_accounts := db_saving_accounts d;
     db_achievements := db_achievements d;
     db_user_achievements := db_user_achievements d |}.

Definition with_user_bank_accounts (l : list (Z * Z)) (d : db) : db :=
  {| db_users := db_users d; db_bank_accounts := db_bank_accounts d;
     db_user_bank_accounts := l;
     db_payment_system := db_payment_system d;
     db_transactions := db_transactions d;
     db_scheduled_transfers := db_scheduled_transfers d;
     db_saving_accounts := db_saving_accounts d;
     db_achievements := db_achievements d;
     db_user_achievements := db_user_achievements d |}.

Definition with_payment_system (m : gmap Z Z) (d : db) : db :=
  {| db_users := db_users d; db_bank_accounts := db_bank_accounts d;
     db_user_bank_accounts := db_user_bank_accounts d;
     db_payment_system := m;
     db_transactions := db_transactions d;
     db_scheduled_transfers := db_scheduled_transfers d;
     db_saving_accounts := db_saving_accounts d;
     db_achievements := db_achievements d;
     db_user_achievements := db_user_achievements d |}.

Definition with_transactions (l : list transaction_row) (d : db) : db :=
  {| db_users := db_users d; db_bank_accounts := db_bank_accounts d;
     db_user_bank_accounts := db_user_bank_accounts d;
     db_payment_system := db_payment_system d;
     db_transactions := l;
     db_scheduled_transfers := db_scheduled_transfers d;
     db_saving_accounts := db_saving_accounts d;
     db_achievements := db_achievements d;
     db_user_achievements := db_user_achievements d |}.

Definition with_scheduled_transfers (l : list scheduled_transfer_row)
    (d : db) : db :=
  {| db_users := db_users d; db_bank_accounts := db_bank_accounts d;
     db_user_bank_accounts := db_user_bank_accounts d;
     db_payment_system := db_payment_system d;
     db_transactions := db_transactions d;
     db_scheduled_transfers := l;
     db_saving_accounts := db_saving_accounts d;
     db_achievements := db_achievements d;
     db_user_achievements := db_user_achievements d |}.

Definition with_saving_accounts (l : list saving_account_row) (d : db) : db :=
  {| db_users := db_users d; db_bank_accounts := db_bank_accounts d;
     db_user_bank_accounts := db_user_bank_accounts d;
     db_payment_system := db_payment_system d;
     db_transactions := db_transactions d;
     db_scheduled_transfers := db_scheduled_transfers d;
     db_saving_accounts := l;
     db_achievements := db_achievements d;
     db_user_achievements := db_user_achievements d |}.

Definition with_user_achievements (s : gset (Z * Z)) (d : db) : db :=
  {| db_users := db_users d; db_bank_accounts := db_bank_accounts d;
     db_user_bank_accounts := db_user_bank_accounts d;
     db_payment_system := db_payment_system d;
     db_transactions := db_transactions d;
     db_scheduled_transfers := db_scheduled_transfers d;
     db_saving_accounts := db_saving_accounts d;
     db_achievements := db_achievements d;
     db_user_achievements := s |}.

(** [self.stats]. *)
Record statistics := Statistics {
  users_created : Z;
  accounts_created : Z;
  transactions_created : Z;
  scheduled_transfers_created : Z
}.

(** [self.conn]: [None] before the first connection, then a connection
    that is open, with the store as its uncommitted transaction sees it,
    or closed. *)
Inductive connection :=
  | NoConn
  | Open (pending : db)
  | Closed.

(** The in-process state of a [BankDataGenerator] together with the
    committed store it talks to. *)
Record world := World {
  max_accounts : Z;
  users : list Z;
  accounts : list account;
  transaction_types : list (Z * string);
  payment_systems : list (Z * string);
  stats : statistics;
  conn : connection;
  store : db
}.

Definition with_accounts (l : list account) (w : world) : world :=
  {| max_accounts := max_accounts w; users := users w; accounts := l;
     transaction_types := transaction_types w;
     payment_systems := payment_systems w; stats := stats w;
     conn := conn w; store := store w |}.

Definition with_stats (s : statistics) (w : world) : world :=
  {| max_accounts := max_accounts w; users := users w;
     accounts := accounts w;
     transaction_types := transaction_types w;
     payment_systems := payment_systems w; stats := s;
     conn := conn w; store := store w |}.

Definition with_conn (c : connection) (w : world) : world :=
  {| max_accounts := max_accounts w; users := users w;
     accounts := accounts w;
     transaction_types := transaction_types w;
     payment_systems := payment_systems w; stats := stats w;
     conn := c; store := store w |}.

Definition with_store (d : db) (w : world) : world :=
  {| max_accounts := max_accounts w; users := users w;
     accounts := accounts w;
     transaction_types := transaction_types w;
     payment_systems := payment_systems w; stats := stats w;
     conn := conn w; store := d |}.

(** ** The monad of a [with self.get_cursor()] block *)

Definition M (A : Type) : Type := world -> result A * world.

Definition ret {A} (v : A) : M A := fun w => (Ok v, w).

Definition bind {A B} (m : M A) (k : A -> M B) : M B := fun w =>
  match m w with
  | (Ok v, w') => k v w'
  | (Raise, w') => (Raise, w')
  | (Hang, w') => (Hang, w')
  end.

Definition raise {A} : M A := fun w => (Raise, w).

Declare Scope py_scope.
Delimit Scope py_scope with py.
Notation "x <- m ;; k" := (bind m (fun x => k))
  (at level 100, m at next level, right associativity) : py_scope.
Notation "m ;;; k" := (bind m (fun _ => k))
  (at level 100, right associativity) : py_scope.
Local Open Scope py_scope.

Definition get_world : M world := fun w => (Ok w, w).

Definition modify (f : world -> world) : M unit := fun w => (Ok tt, f w).

(** A Python value that raises when it is missing: [x[...]] on [None],
    [random.choice] of an empty list. *)
Definition expect {A} (o : option A) : M A :=
  match o with Some v => ret v | None => raise end.

(** Running a computation that yields a plain [result]. *)
Definition lift_result {A} (r : result A) : M A := fun w => (r, w).

(** The statements of the program that go to the store, as labels for
    the fault oracle. *)
Inductive stmt :=
  | Connect
  | Commit
  | SelectLastNumber
  | UpdateLastNumber
  | InsertBankAccount
  | InsertUserBankAccount
  | InsertSavingAccount
  | DebitSender
  | InsertFailed
  | CreditReceiver
  | InsertCompleted
  | InsertScheduledTransfer
  | SelectUserStats
  | InsertGrant (user_id : Z) (name : string).

(** [cur.execute(...)] followed by the fetch the code does on it: the
    statement [q] runs on the open transaction and returns what the code
    reads back, or is rejected by the store ([None]).  It raises when it
    is rejected, when the oracle says so and when the connection is not
    open. *)
Definition execute {A} (faulty : stmt -> bool) (s : stmt)
    (q : db -> option (A * db)) : M A := fun w =>
  match conn w with
  | Open p =>
      if faulty s then (Raise, w)
      else match q p with
           | Some (v, p') => (Ok v, with_conn (Open p') w)
           | None => (Raise, w)
           end
  | _ => (Raise, w)
  end.

(** The [finally] clause of [get_cursor] (lines 65-69): the connection,
    when there is one, is closed; what its transaction had not committed
    is gone with it. *)
Definition close (w : world) : world :=
  match conn w with NoConn => w | _ => with_conn Closed w end.

(** Lines 53-55: connect unless [self.conn] is an open connection. *)
Definition enter (faulty : stmt -> bool) (w : world) : result unit * world :=
  match conn w with
  | Open _ => (Ok tt, w)
  | _ => if faulty Connect then (Raise, w)
         else (Ok tt, with_conn (Open (store w)) w)
  end.

(** Lines 58-69, after the block: [self.conn.commit()] when the block
    ended normally, which raises on a connection that is closed by then;
    an exception leads to [self.conn.rollback()] and is raised again;
    the connection is closed in every case. *)
Definition leave {A} (faulty : stmt -> bool) (r : result A * world)
    : result A * world :=
  match r with
  | (Ok v, w) =>
      match conn w with
      | Open p =>
          if faulty Commit then (Raise, close w)
          else (Ok v, close (with_store p w))
      | _ => (Raise, close w)
      end
  | (Raise, w) => (Raise, close w)
  | (Hang, w) => (Hang, w)
  end.

(** [with self.get_cursor() as cur: body] (lines 50-69). *)
Definition get_cursor {A} (faulty : stmt -> bool) (body : M A) : M A :=
  fun w =>
  match enter faulty w with
  | (Ok _, w1) => leave faulty (body w1)
  | (_, w1) => (Raise, close w1)
  end.

(** [try: ... except Exception as e: logger.error(...)] around a block,
    with the value [d] returned by the handler. *)
Definition try_except {A} (body : M A) (d : A) : M A := fun w =>
  match body w with
  | (Raise, w') => (Ok d, w')
  | r => r
  end.

(** [random.choice(l)] with draw [i]. *)
Definition choice {A} (l : list A) (i : nat) : option A :=
  l !! (i mod length l)%nat.

(** ** Printing integers *)

(** [str(n)] for [0 <= n]. *)
Definition digits (n : N) : string := NilEmpty.string_of_uint (N.to_uint n).

Fixpoint zeros (k : nat) : string :=
  match k with O => "" | S k' => String "0" (zeros k') end.

(** Left padding with ['0'] up to [width] characters. *)
Definition zfill (width : nat) (s : string) : string :=
  zeros (width - String.length s) +:+ s.

(** [f"{n:06d}"]: sign-aware zero padding to six characters. *)
Definition format_06d (n : Z) : string :=
  if bool_decide (n < 0) then "-" +:+ zfill 5 (digits (Z.to_N (- n)))
  else zfill 6 (digits (Z.to_N n)).

(** [f"{n}"]. *)
Definition format_d (n : Z) : string :=
  if bool_decide (n < 0) then "-" +:+ digits (Z.to_N (- n))
  else digits (Z.to_N n).

(** ** Binary64 *)

(** The arithmetic of Python floats: IEEE 754 binary64, every result
    rounded to the nearest float, a tie going to the even mantissa. *)
Definition b64_add : spec_float -> spec_float -> spec_float := SFadd 53 1024.
Definition b64_mul : spec_float -> spec_float -> spec_float := SFmul 53 1024.
Definition b64_div : spec_float -> spec_float -> spec_float := SFdiv 53 1024.
Definition b64_leb : spec_float -> spec_float -> bool := SFleb.

(** The float nearest to the decimal [z / 100] (a tie going to the even
    mantissa): [float(d)] for a [Decimal] [d] with two places, the value
    of a literal such as [0.85] or [75.0], and the float that
    [round(u, 2)] returns. *)
Definition b64_of_hundredths (z : Z) : spec_float :=
  match z with
  | Z0 => S754_zero false
  | Zpos p => b64_div (S754_finite false p 0) (S754_finite false 100 0)
  | Zneg p => b64_div (S754_finite true p 0) (S754_finite false 100 0)
  end.

(** The rational a float stands for.  Infinities and NaN, which no
    amount below 10^300 gives, are left at 0. *)
Definition b64_value (x : spec_float) : Q :=
  match x with
  | S754_finite s m e =>
      ((if s then inject_Z (Zneg m) else inject_Z (Zpos m)) * 2 ^ e)%Q
  | _ => 0%Q
  end.

(** Line 223: [round(random.uniform(1, max_amount), 2) + 100], the float
    behind the amount of [amount] hundredths ([amount - 10000] is the
    rounded draw).  The sum is rounded once more: [8.21 + 100] is
    [108.21000000000001], one place above [float(108.21)]. *)
Definition amount_float (amount : Z) : spec_float :=
  b64_add (b64_of_hundredths (amount - 10000)) (b64_of_hundredths 10000).

(** Line 250: [float(sender_account['balance']) >= amount], for a cached
    balance of [b] hundredths.  Two different decimals with two places
    are a hundredth apart at least, and for balances below 10^13 (10^15
    hundredths) the three roundings involved, of relative error 2^-53
    each, stay far under that: the floats then compare as the decimals
    do.  When the decimals are equal the floats need not be, and
    binary64 decides. *)
Definition covers (b amount : Z) : bool :=
  if bool_decide (amount = b)
  then b64_leb (amount_float amount) (b64_of_hundredths b)
  else bool_decide (amount < b).

(** ** Currency conversion (lines 242-247) *)

(** [round(x, 2)], in hundredths, for the value [x] of a float: Python
    rounds the exact value of the float to the nearest decimal with two
    places, a tie going to the even one. *)
Definition round2 (x : Q) : Z :=
  let y := (x * 100)%Q in
  let f := Qfloor y in
  let r := (y - inject_Z f)%Q in
  match (r ?= 1 # 2)%Q with
  | Lt => f
  | Gt => f + 1
  | Eq => if Z.even f then f else f + 1
  end.

Definition rates : gmap string spec_float :=
  list_to_map [("USD", b64_of_hundredths 100); ("EUR", b64_of_hundredths 85);
               ("RUB", b64_of_hundredths 7500); ("GBP", b64_of_hundredths 73)].

(** [rates.get(acc.get('currency', 'USD'), 1.0)]: the inner default only
    applies to an absent key; a NULL currency is looked up as [None] and
    falls to the outer default.  Both give 1.0. *)
Definition rate_of (acc : account) : spec_float :=
  default (b64_of_hundredths 100) (c ← currency acc; rates !! c).

Definition convert (sender_account : option account)
    (receiver_account : account) (amount : Z) : Z :=
  match sender_account with
  | Some s =>
      if bool_decide (currency s ≠ currency receiver_account) then
        let from_rate := rate_of s in
        let to_rate := rate_of receiver_account in
        round2
          (b64_value (b64_div (b64_mul (amount_float amount) from_rate) to_rate))
      else amount
  | None => amount
  end.

(** ** SQL statements *)

Definition with_ba_balance (b : Z) (r : bank_account_row) : bank_account_row :=
  {| ba_account_number := ba_account_number r; ba_balance := b;
     ba_payment_system := ba_payment_system r;
     ba_currency := ba_currency r; ba_owner_id := ba_owner_id r |}.

(** [UPDATE bank_accounts SET balance = balance + delta
     WHERE bank_account_id = id RETURNING balance] and [cur.fetchone()]:
    no row is returned when no row has that id. *)
Definition update_balance (id delta : Z) (d : db) : option (option Z * db) :=
  match db_bank_accounts d !! id with
  | Some r =>
      let b := ba_balance r + delta in
      Some (Some b,
            with_bank_accounts (<[id := with_ba_balance b r]> (db_bank_accounts d)) d)
  | None => Some (None, d)
  end.

(** [INSERT INTO transactions (...) VALUES (...)]; the [transaction_id]
    and [created_at] the store assigns are not read by the code. *)
Definition insert_transaction (t : transaction_row) (d : db)
    : option (unit * db) :=
  Some (tt, with_transactions (db_transactions d ++ [t]) d).

Definition insert_scheduled_transfer (t : scheduled_transfer_row) (d : db)
    : option (unit * db) :=
  Some (tt, with_scheduled_transfers (db_scheduled_transfers d ++ [t]) d).

(** [SELECT last_number FROM payment_system WHERE payment_system_id = id
     FOR UPDATE] and [cur.fetchone()]. *)
Definition select_last_number (id : Z) (d : db) : option (option Z * db) :=
  Some (db_payment_system d !! id, d).

(** [UPDATE payment_system SET last_number = last_number + 1
     WHERE payment_system_id = id]. *)
Definition update_last_number (id : Z) (d : db) : option (unit * db) :=
  Some (tt, with_payment_system (alter Z.succ id (db_payment_system d)) d).

(** [INSERT INTO bank_accounts (...) RETURNING bank_account_id,
    account_number, balance, currency] and [cur.fetchone()].  The id is
    the one the store assigns; the insertion is rejected when the key is
    taken. *)
Definition insert_bank_account (id : Z) (r : bank_account_row) (d : db)
    : option (account * db) :=
  match db_bank_accounts d !! id with
  | Some _ => None
  | None =>
      Some ({| bank_account_id := id; owner_id := None;
               balance := ba_balance r; currency := ba_currency r;
               account_number := ba_account_number r |},
            with_bank_accounts (<[id := r]> (db_bank_accounts d)) d)
  end.

Definition insert_user_bank_account (id user_id : Z) (d : db)
    : option (unit * db) :=
  Some (tt, with_user_bank_accounts (db_user_bank_accounts d ++ [(id, user_id)]) d).

Definition insert_saving_account (r : saving_account_row) (d : db)
    : option (unit * db) :=
  Some (tt, with_saving_accounts (db_saving_accounts d ++ [r]) d).

(** ** [create_scheduled_transfer] (lines 338-376) *)

Record transfer_draws := TransferDraws {
  frequency_pick : nat;      (* random.choice(['weekly', 'monthly']) *)
  end_days : Z;              (* random.randint(30, 180) or (90, 365) *)
  transfer_suffix : Z;       (* random.randint(1000, 9999) *)
  start_date : Z;            (* datetime.now().date(), as a day number *)
  transfer_faulty : stmt -> bool
}.

Definition bump_scheduled_transfers (s : statistics) : statistics :=
  {| users_created := users_created s;
     accounts_created := accounts_created s;
     transactions_created := transactions_created s;
     scheduled_transfers_created := scheduled_transfers_created s + 1 |}.

Definition create_scheduled_transfer (r : transfer_draws)
    (sender_account receiver_account : account) (amount : Z) : M unit :=
  try_except
    (get_cursor (transfer_faulty r)
       (frequency <- expect (choice ["weekly"; "monthly"] (frequency_pick r)) ;;
        let next_date :=
          if bool_decide (frequency = "weekly") then start_date r + 7
          else start_date r + 30 in
        let end_date := start_date r + end_days r in
        let description :=
          "Scheduled " +:+ frequency +:+ " transfer #"
            +:+ format_d (transfer_suffix r) in
        execute (transfer_faulty r) InsertScheduledTransfer
          (insert_scheduled_transfer
             {| st_sender_account_id := bank_account_id sender_account;
                st_receiver_account_id := bank_account_id receiver_account;
                st_amount := amount; st_description := description;
                st_frequency := frequency; st_start_date := start_date r;
                st_next_occurrence_date := next_date;
                st_end_date := end_date |}) ;;;
        modify (fun w => with_stats (bump_scheduled_transfers (stats w)) w)))
    tt.

(** ** [generate_transaction] (lines 206-336) *)

Record transaction_draws := TransactionDraws {
  no_sender : bool;            (* random.random() < 0.3 *)
  sender_pick : nat;           (* random.choice(self.accounts) *)
  receiver_pick : nat;         (* random.choice(self.accounts) *)
  receiver_repicks : list nat; (* the same, in the resampling loop *)
  max_amount_draw : Z;         (* round(random.uniform(10, 1000), 2) *)
  amount_draw : Z;             (* round(random.uniform(1, max_amount), 2) *)
  type_pick : nat;             (* random.choice(self.transaction_types) *)
  phrase_pick : nat;           (* random.choice(descriptions.get(...)) *)
  description_suffix : Z;      (* random.randint(1000, 9999) *)
  spawn : bool;                (* random.random() < 0.05 *)
  transfer : transfer_draws;
  faulty : stmt -> bool
}.

(** The loop of lines 219-220: the receiver is drawn again while it has
    the sender's id. *)
Fixpoint resample (pool : list account) (sender_account : option account)
    (receiver_account : account) (repicks : list nat) : result account :=
  match sender_account with
  | Some s =>
      if bool_decide (bank_account_id s = bank_account_id receiver_account)
      then match repicks with
           | [] => Hang
           | i :: repicks' =>
               match choice pool i with
               | Some a => resample pool sender_account a repicks'
               | None => Raise
               end
           end
      else Ok receiver_account
  | None => Ok receiver_account
  end.

(** Line 222. *)
Definition max_amount (r : transaction_draws)
    (sender_account : option account) : Z :=
  match sender_account with
  | Some s => balance s
  | None => max_amount_draw r
  end.

(** Lines 228-229: the first type named ['deposit'], or the type already
    picked. *)
Definition deposit_or (types : list (Z * string)) (picked : Z * string)
    : Z * string :=
  default picked (head (filter (fun t => t.2 = "deposit") types)).

Definition descriptions : gmap string (list string) :=
  list_to_map
    [("transfer", ["Money transfer"; "Funds transfer"; "Payment"]);
     ("deposit", ["ATM deposit"; "Bank deposit"; "Cash deposit"]);
     ("withdrawal", ["ATM withdrawal"; "Cash withdrawal"]);
     ("payment", ["Online payment"; "Store payment"; "Service payment"]);
     ("refund", ["Purchase refund"; "Service refund"])].

(** Lines 262-265 and 298-301: the first cache entry with the id gets
    the balance the store returned. *)
Fixpoint update_cached_balance (id b : Z) (l : list account) : list account :=
  match l with
  | [] => []
  | acc :: l' =>
      if bool_decide (bank_account_id acc = id) then set_balance b acc :: l'
      else acc :: update_cached_balance id b l'
  end.

Definition bump_transactions (s : statistics) : statistics :=
  {| users_created := users_created s;
     accounts_created := accounts_created s;
     transactions_created := transactions_created s + 1;
     scheduled_transfers_created := scheduled_transfers_created s |}.

(** The record of lines 269-283 and 305-319. *)
Definition transaction_record (sender_account : option account)
    (receiver_account : account) (amount converted_amount : Z)
    (description : string) (transaction_type : Z * string) (st : status)
    : transaction_row :=
  {| tx_sender_account_id := bank_account_id <$> sender_account;
     tx_receiver_account_id := bank_account_id receiver_account;
     tx_amount := amount; tx_converted_amount := converted_amount;
     tx_description := description; tx_type_id := transaction_type.1;
     tx_status := st |}.

(** Lines 287-333: credit, cache update, [completed] record, counter
    and, now and then, a scheduled transfer. *)
Definition credit_and_record (r : transaction_draws)
    (sender_account : option account) (receiver_account : account)
    (amount converted_amount : Z) (description : string)
    (transaction_type : Z * string) : M unit :=
  row <- execute (faulty r) CreditReceiver
           (update_balance (bank_account_id receiver_account) converted_amount) ;;
  updated_receiver_balance <- expect row ;;
  modify (fun w =>
    with_accounts
      (update_cached_balance (bank_account_id receiver_account)
         updated_receiver_balance (accounts w)) w) ;;;
  execute (faulty r) InsertCompleted
    (insert_transaction
       (transaction_record sender_account receiver_account amount
          converted_amount description transaction_type completed)) ;;;
  modify (fun w => with_stats (bump_transactions (stats w)) w) ;;;
  match sender_account with
  | Some s =>
      if spawn r
      then create_scheduled_transfer (transfer r) s receiver_account amount
      else ret tt
  | None => ret tt
  end.

(** Lines 249-333: the sufficiency check on the balance of the sender's
    cache entry, then the debit and the rest, or the [failed] record and
    [return]. *)
Definition settle (r : transaction_draws)
    (sender_account : option account) (receiver_account : account)
    (amount converted_amount : Z) (description : string)
    (transaction_type : Z * string) : M unit :=
  match sender_account with
  | Some s =>
      if covers (balance s) amount then
        row <- execute (faulty r) DebitSender
                 (update_balance (bank_account_id s) (- amount)) ;;
        updated_sender_balance <- expect row ;;
        modify (fun w =>
          with_accounts
            (update_cached_balance (bank_account_id s)
               updated_sender_balance (accounts w)) w) ;;;
        credit_and_record r sender_account receiver_account amount
          converted_amount description transaction_type
      else
        execute (faulty r) InsertFailed
          (insert_transaction
             (transaction_record sender_account receiver_account amount
                converted_amount description transaction_type failed))
  | None =>
      credit_and_record r sender_account receiver_account amount
        converted_amount description transaction_type
  end.

(** Lines 212-217. *)
Definition pick_sender (r : transaction_draws) (pool : list account)
    : option (option account) :=
  if no_sender r then Some None
  else Some <$> choice pool (sender_pick r).

(** Lines 225-229. *)
Definition pick_type (r : transaction_draws) (types : list (Z * string))
    (sender_account : option account) : option (Z * string) :=
  picked ← choice types (type_pick r);
  Some (match sender_account with
        | Some _ => picked
        | None => deposit_or types picked
        end).

(** Lines 231-240. *)
Definition describe (r : transaction_draws) (transaction_type : Z * string)
    : option string :=
  phrase ← choice (default ["Transaction"] (descriptions !! transaction_type.2))
             (phrase_pick r);
  Some (phrase +:+ " #" +:+ format_d (description_suffix r)).

(** The body of the [with] block, lines 212-333. *)
Definition transaction_block (r : transaction_draws) : M unit :=
  w <- get_world ;;
  sender_account <- expect (pick_sender r (accounts w)) ;;
  first_pick <- expect (choice (accounts w) (receiver_pick r)) ;;
  receiver_account <-
    lift_result
      (resample (accounts w) sender_account first_pick (receiver_repicks r)) ;;
  let amount := amount_draw r + 10000 in
  transaction_type <- expect (pick_type r (transaction_types w) sender_account) ;;
  description <- expect (describe r transaction_type) ;;
  let converted_amount := convert sender_account receiver_account amount in
  settle r sender_account receiver_account amount converted_amount
    description transaction_type.

Definition generate_transaction (r : transaction_draws) : M unit :=
  w <- get_world ;;
  if bool_decide (length (accounts w) < 2)%nat then ret tt
  else try_except (get_cursor (faulty r) (transaction_block r)) tt.

(** The draws [random.uniform] can return: [uniform(a, b)] lies between
    [a] and [b], whichever is larger. *)
Definition valid_amount_draws (r : transaction_draws)
    (sender_account : option account) : Prop :=
  1000 <= max_amount_draw r <= 100000 /\
  Z.min 100 (max_amount r sender_account) <= amount_draw r
    <= Z.max 100 (max_amount r sender_account).

(** ** [create_account] (lines 130-204) *)

Record account_draws := AccountDraws {
  owner_pick : nat;            (* random.choice(self.users) *)
  payment_system_pick : nat;   (* random.choice(self.payment_systems) *)
  balance_draw : Z;            (* round(random.uniform(100, 10000), 2) *)
  currency_pick : nat;         (* random.choice(['USD', 'EUR', 'RUB', 'GBP']) *)
  assigned_id : Z;             (* the bank_account_id the store assigns *)
  with_goal : bool;            (* random.random() < 0.2 *)
  goal_amount_draw : Z;        (* round(balance * random.uniform(2, 5), 2) *)
  goal_name_pick : nat;
  interest_rate_draw : Z;      (* round(random.uniform(1.5, 7.5), 2) *)
  today : Z;                   (* datetime.now(), as a day number *)
  account_faulty : stmt -> bool
}.

Definition bump_accounts (s : statistics) : statistics :=
  {| users_created := users_created s;
     accounts_created := accounts_created s + 1;
     transactions_created := transactions_created s;
     scheduled_transfers_created := scheduled_transfers_created s |}.

(** Line 148. *)
Definition number_for (payment_system : Z * string) (last_number : Z)
    : string :=
  payment_system.2 +:+ format_06d last_number.

(** The body of the [with] block, lines 136-200. *)
Definition account_block (r : account_draws) : M (option account) :=
  w <- get_world ;;
  owner <- expect (choice (users w) (owner_pick r)) ;;
  payment_system <-
    expect (choice (payment_systems w) (payment_system_pick r)) ;;
  row <- execute (account_faulty r) SelectLastNumber
           (select_last_number payment_system.1) ;;
  last_number <- expect row ;;
  let account_number := number_for payment_system last_number in
  execute (account_faulty r) UpdateLastNumber
    (update_last_number payment_system.1) ;;;
  let new_balance := balance_draw r in
  cur <- expect (choice ["USD"; "EUR"; "RUB"; "GBP"] (currency_pick r)) ;;
  acc <- execute (account_faulty r) InsertBankAccount
           (insert_bank_account (assigned_id r)
              {| ba_account_number := account_number;
                 ba_balance := new_balance;
                 ba_payment_system := payment_system.2;
                 ba_currency := Some cur; ba_owner_id := owner |}) ;;
  modify (fun w => with_accounts (accounts w ++ [acc]) w) ;;;
  execute (account_faulty r) InsertUserBankAccount
    (insert_user_bank_account (bank_account_id acc) owner) ;;;
  (if with_goal r then
     goal_name <-
       expect (choice ["House"; "Car"; "Vacation"; "Education";
                       "Emergency Fund"] (goal_name_pick r)) ;;
     execute (account_faulty r) InsertSavingAccount
       (insert_saving_account
          {| sa_bank_account_id := bank_account_id acc;
             sa_goal_amount := goal_amount_draw r;
             sa_goal_name := goal_name;
             sa_min_balance_thousandths := new_balance * 5;
             sa_interest_rate := interest_rate_draw r;
             sa_next_interest_date := today r + 30 |})
   else ret tt) ;;;
  modify (fun w => with_stats (bump_accounts (stats w)) w) ;;;
  ret (Some acc).

Definition create_account (r : account_draws) : M (option account) :=
  w <- get_world ;;
  if bool_decide (max_accounts w <= Z.of_nat (length (accounts w)))
     || bool_decide (users w = [])
  then ret None
  else try_except (get_cursor (account_faulty r) (account_block r)) None.

(** ** [update_achievements] (lines 378-417) *)

Record user_stats := UserStats {
  us_user_id : Z;
  tx_count : Z;
  total_received : Z
}.

(** The rows [users u LEFT JOIN bank_accounts ba ON u.user_id =
    ba.owner_id LEFT JOIN transactions t ON ba.bank_account_id =
    t.receiver_account_id] has for user [u] with a transaction. *)
Definition received (d : db) (u : Z) : list transaction_row :=
  '(id, ba) ← map_to_list (db_bank_accounts d);
  if bool_decide (ba_owner_id ba = u)
  then filter (fun t => tx_receiver_account_id t = id) (db_transactions d)
  else [].

(** The rows of the query of lines 381-390: one per user, kept when
    [COUNT(t.transaction_id) > 0]; on the joined rows that have a
    transaction the CASE always takes its first branch. *)
Definition user_stats_rows (d : db) : list user_stats :=
  u ← elements (db_users d);
  (let rows := received d u in
   if bool_decide (0 < length rows)%nat
   then [{| us_user_id := u; tx_count := Z.of_nat (length rows);
            total_received := foldr Z.add 0 (tx_amount <$> rows) |}]
   else []).

Definition select_user_stats (d : db) : option (list user_stats * db) :=
  Some (user_stats_rows d, d).

(** [SELECT u, achievement_id FROM achievements WHERE name = n]. *)
Definition selected (u : Z) (n : string) (d : db) : gset (Z * Z) :=
  list_to_set ((fun a => (u, a.1)) <$> filter (fun a => a.2 = n) (db_achievements d)).

(** [INSERT INTO user_achievements (user_id, achievement_id)
     SELECT u, achievement_id FROM achievements WHERE name = n
     ON CONFLICT (user_id, achievement_id) DO NOTHING]. *)
Definition insert_grant (u : Z) (n : string) (d : db) : option (unit * db) :=
  Some (tt,
        with_user_achievements (db_user_achievements d ∪ selected u n d) d).

Fixpoint for_each {A} (l : list A) (f : A -> M unit) : M unit :=
  match l with
  | [] => ret tt
  | x :: l' => f x ;;; for_each l' f
  end.

Definition when (b : bool) (m : M unit) : M unit := if b then m else ret tt.

Definition grant (faulty : stmt -> bool) (u : Z) (n : string) : M unit :=
  execute faulty (InsertGrant u n) (insert_grant u n).

Definition achievements_block (faulty : stmt -> bool) : M unit :=
  users_stats <- execute faulty SelectUserStats select_user_stats ;;
  for_each users_stats (fun user =>
    when (bool_decide (1 <= tx_count user))
      (grant faulty (us_user_id user) "First Transaction") ;;;
    when (bool_decide (50 <= tx_count user))
      (grant faulty (us_user_id user) "Active User") ;;;
    when (bool_decide (1000000 <= total_received user))
      (grant faulty (us_user_id user) "Savings Master")).

Definition update_achievements (faulty : stmt -> bool) : M unit :=
  try_except (get_cursor faulty (achievements_block faulty)) tt.

(** ** The conversion rule as the specification words it *)


(** [z] hundredths is [x] rounded to two decimal places: no decimal with
    two places is nearer to [x], and of two that are equally near [z] is
    the even one. *)
Definition rounded_to_hundredths (x : Q) (z : Z) : Prop :=
  (x * 100 - (1 # 2) <= inject_Z z <= x * 100 + (1 # 2))%Q /\
  ((x * 100 - inject_Z z == 1 # 2)%Q \/ (inject_Z z - x * 100 == 1 # 2)%Q ->
   Z.even z = true).



(** ** States and invariants *)

(** No transaction is open: the state in which the driver loop calls an
    operation. *)
Definition idle (w : world) : Prop :=
  match conn w with Open _ => False | _ => True end.

(** [P] holds of the committed store and of the open transaction. *)
Definition everywhere (P : db -> Prop) (w : world) : Prop :=
  P (store w) /\ forall p, conn w = Open p -> P p.




Definition stored_balance (id : Z) (d : db) : option Z :=
  ba_balance <$> db_bank_accounts d !! id.

(** [m] keeps [I], however it ends. *)
Definition preserves (I : world -> Prop) {A} (m : M A) : Prop :=
  forall w, I w -> I (m w).2.

(** The statement [q] keeps [P]. *)
Definition stable (P : db -> Prop) {A} (q : db -> option (A * db)) : Prop :=
  forall d v d', P d -> q d = Some (v, d') -> P d'.

(** [w1] is the world a block of [get_cursor] entered from [w] starts
    in. *)
Definition entered (w w1 : world) : Prop :=
  accounts w1 = accounts w /\ transaction_types w1 = transaction_types w /\
  payment_systems w1 = payment_systems w /\ users w1 = users w /\
  store w1 = store w /\
  conn w1 = match conn w with Open p => Open p | _ => Open (store w) end.


(** No statement of the invocation meets a store error. *)
Definition quiet (r : transaction_draws) : Prop :=
  forall s, faulty r s = false /\ transfer_faulty (transfer r) s = false.

(** The open transaction of [w] sees [p], or [w] has committed [p] and
    closed its connection. *)
Definition reaches (w : world) (p : db) : Prop :=
  conn w = Open p \/ (conn w = Closed /\ store w = p).


(** The pairs the rules of lines 395-414 insert for a row of the
    statistics. *)
Definition rule_grants (d : db) (user : user_stats) : gset (Z * Z) :=
  (if bool_decide (1 <= tx_count user)
   then selected (us_user_id user) "First Transaction" d else ∅)
  ∪ (if bool_decide (50 <= tx_count user)
     then selected (us_user_id user) "Active User" d else ∅)
  ∪ (if bool_decide (1000000 <= total_received user)
     then selected (us_user_id user) "Savings Master" d else ∅).

(** All the pairs a pass of [update_achievements] inserts. *)
Definition due (d : db) : gset (Z * Z) :=
  ⋃ (rule_grants d <$> user_stats_rows d).

(** The store with the pairs [G] added to [user_achievements]. *)
Definition add_grants (G : gset (Z * Z)) (d : db) : db :=
  with_user_achievements (db_user_achievements d ∪ G) d.

(** The number a string of decimal digits denotes, leading zeros
    allowed. *)
Definition digits_value (s : string) : option N :=
  N.of_uint <$> NilEmpty.uint_of_string s.

(** [m] always comes to an end: it does not stay in a loop. *)
Definition terminates {A} (m : M A) : Prop :=
  forall w, (m w).1 <> Hang.

(** The account numbers that the successive calls [create_account r],
    [r] in [rs], return for the rail [payment_system] (a row of
    [self.payment_systems]), in order. *)
Fixpoint issued (payment_system : Z * string) (rs : list account_draws)
    (w : world) : list string :=
  match rs with
  | [] => []
  | r :: rs' =>
      let res := create_account r w in
      match res.1 with
      | Ok (Some acc) =>
          if bool_decide (choice (payment_systems w) (payment_system_pick r)
                          = Some payment_system)
          then account_number acc :: issued payment_system rs' res.2
          else issued payment_system rs' res.2
      | _ => issued payment_system rs' res.2
      end
  end.

(** The row [create_account] inserts into [bank_accounts]. *)
Definition new_bank_account (r : account_draws) (payment_system : Z * string)
    (last_number : Z) (cur : string) (owner : Z) : bank_account_row :=
  {| ba_account_number := number_for payment_system last_number;
     ba_balance := balance_draw r;
     ba_payment_system := payment_system.2;
     ba_currency := Some cur; ba_owner_id := owner |}.

(** What a successful [create_account] has committed and cached: the
    account [acc] carries the number made of the rail's name and of its
    counter, the counter has advanced by one, the row and the membership
    row are there, the cache has the account at its end. *)
Definition created (r : account_draws) (w : world) (acc : account)
    (w' : world) : Prop :=
  exists owner payment_system last_number cur,
    choice (users w) (owner_pick r) = Some owner /\
    choice (payment_systems w) (payment_system_pick r) = Some payment_system /\
    db_payment_system (store w) !! payment_system.1 = Some last_number /\
    db_bank_accounts (store w) !! assigned_id r = None /\
    acc = {| bank_account_id := assigned_id r; owner_id := None;
             balance := balance_draw r; currency := Some cur;
             account_number := number_for payment_system last_number |} /\
    db_payment_system (store w')
      = alter Z.succ payment_system.1 (db_payment_system (store w)) /\
    db_bank_accounts (store w') =
      <[assigned_id r := new_bank_account r payment_system last_number cur owner]>
        (db_bank_accounts (store w)) /\
    db_user_bank_accounts (store w') =
      (db_user_bank_accounts (store w) ++ [(assigned_id r, owner)])%list /\
    db_transactions (store w') = db_transactions (store w) /\
    accounts w' = (accounts w ++ [acc])%list /\
    stats w' = bump_accounts (stats w).

(** The rules of lines 395, 402 and 409: with [count] received
    transactions that total [total], the achievement named [n] is
    granted. *)
Definition qualifies (count total : Z) (n : string) : Prop :=
  (n = "First Transaction" /\ 1 <= count) \/
  (n = "Active User" /\ 50 <= count) \/
  (n = "Savings Master" /\ 1000000 <= total).

(** What of a cache entry is not its balance. *)
Definition shape (acc : account) : Z * option Z * option string * string :=
  (bank_account_id acc, owner_id acc, currency acc, account_number acc).

(** The parts of the in-process state that the ledger engine only
    reads. *)
Definition layout (w : world)
    : list (Z * option Z * option string * string) * list Z
      * list (Z * string) * list (Z * string) * Z :=
  (shape <$> accounts w, users w, transaction_types w, payment_systems w,
   max_accounts w).

(** [m], started where [I] holds, ends where [J] does, however it
    ends. *)
Definition hoare (I J : world -> Prop) {A} (m : M A) : Prop :=
  forall w, I w -> J (m w).2.

(** The transactions of [d] are [before], or [before] and one record of
    which [G] holds. *)
Definition at_most_one (before : list transaction_row)
    (G : transaction_row -> Prop) (d : db) : Prop :=
  db_transactions d = before \/
  exists t, db_transactions d = (before ++ [t])%list /\ G t.

(** A record an invocation with draws [r] may write over the cache
    [pool]: of the drawn amount, to an entry of the cache, from another
    entry of the cache under another id, or from nobody and completed. *)
Definition well_formed_record (pool : list account) (r : transaction_draws)
    (t : transaction_row) : Prop :=
  tx_amount t = amount_draw r + 10000 /\
  (exists receiver_account, receiver_account ∈ pool /\
     tx_receiver_account_id t = bank_account_id receiver_account) /\
  match tx_sender_account_id t with
  | Some id =>
      id <> tx_receiver_account_id t /\
      exists sender_account, sender_account ∈ pool /\
        bank_account_id sender_account = id
  | None => tx_status t = completed
  end.

(** The loop of lines 219-220 comes to an end for the participants
    drawn in [w]. *)
Definition loop_ends (r : transaction_draws) (w : world) : Prop :=
  forall sender_account first,
    pick_sender r (accounts w) = Some sender_account ->
    choice (accounts w) (receiver_pick r) = Some first ->
    resample (accounts w) sender_account first (receiver_repicks r) <> Hang.


(** [covers] against the comparison of the two floats, for the
    balances a hundredth below, at and a hundredth above [amount]. *)
Definition covers_as_binary64 (amount : Z) : bool :=
  forallb
    (fun b =>
       Bool.eqb (covers b amount)
         (b64_leb (amount_float amount) (b64_of_hundredths b)))
    [amount - 1; amount; amount + 1].

(** ** Sample states *)

Definition no_faults : stmt -> bool := fun _ => false.

(** The store rejects the insertion of the [completed] record, and
    nothing else. *)
Definition insert_fails : stmt -> bool :=
  fun s => match s with InsertCompleted => true | _ => false end.

(** Draws for [create_account]: the first user, the first rail, a
    balance of 123.45 in EUR, no savings goal, and [id] as the id the
    store assigns. *)
Definition sample_account_draws (id : Z) (faults : stmt -> bool)
    : account_draws :=
  {| owner_pick := 0; payment_system_pick := 0; balance_draw := 12345;
     currency_pick := 1; assigned_id := id; with_goal := false;
     goal_amount_draw := 30000; goal_name_pick := 0;
     interest_rate_draw := 250; today := 100; account_faulty := faults |}.

(** The store rejects the insertion of the membership row, and nothing
    else. *)
Definition membership_fails : stmt -> bool :=
  fun s => match s with InsertUserBankAccount => true | _ => false end.

(** The row [create_scheduled_transfer] inserts (lines 341-370). *)
Definition scheduled_transfer_for (r : transfer_draws)
    (sender_account receiver_account : account) (amount : Z)
    (frequency : string) : scheduled_transfer_row :=
  {| st_sender_account_id := bank_account_id sender_account;
     st_receiver_account_id := bank_account_id receiver_account;
     st_amount := amount;
     st_description :=
       "Scheduled " +:+ frequency +:+ " transfer #"
         +:+ format_d (transfer_suffix r);
     st_frequency := frequency; st_start_date := start_date r;
     st_next_occurrence_date :=
       if bool_decide (frequency = "weekly") then start_date r + 7
       else start_date r + 30;
     st_end_date := start_date r + end_days r |}.

(** The day counts [random.randint] can return at lines 347 and 351. *)
Definition valid_end_days (r : transfer_draws) (frequency : string) : Prop :=
  if bool_decide (frequency = "weekly") then 30 <= end_days r <= 180
  else 90 <= end_days r <= 365.

(** The store rejects the insertion of the scheduled transfer, and
    nothing else. *)
Definition schedule_fails : stmt -> bool :=
  fun s => match s with InsertScheduledTransfer => true | _ => false end.

(** Two accounts of two users under one rail; the first account has
    [cached1] in the cache and [stored1] in the store. *)
Definition sample_world (cached1 stored1 : Z) (currency1 currency2 : string)
    : world :=
  {| max_accounts := 5000;
     users := [7; 8];
     accounts :=
       [Account 1 (Some 7) cached1 (Some currency1) "VISA000001";
        Account 2 (Some 8) 1000 (Some currency2) "VISA000002"];
     transaction_types := [(1, "deposit"); (2, "transfer")];
     payment_systems := [(1, "VISA")];
     stats := Statistics 0 0 0 0;
     conn := NoConn;
     store :=
       {| db_users := {[7; 8]};
          db_bank_accounts :=
            {[1 := BankAccountRow "VISA000001" stored1 "VISA" (Some currency1) 7;
              2 := BankAccountRow "VISA000002" 1000 "VISA" (Some currency2) 8]};
          db_user_bank_accounts := [(1, 7); (2, 8)];
          db_payment_system := {[1 := 3]};
          db_transactions := [];
          db_scheduled_transfers := [];
          db_saving_accounts := [];
          db_achievements :=
            [(1, "First Transaction"); (2, "Active User");
             (3, "Savings Master")];
          db_user_achievements := ∅ |} |}.

(** Draws that send from the first account to the second (or, with
    [deposit], from nowhere), pick the type ["transfer"] and add 100.00
    to [draw]. *)
Definition sample_draws (deposit : bool) (draw : Z) (spawning : bool)
    (faults : stmt -> bool) : transaction_draws :=
  {| no_sender := deposit; sender_pick := 0; receiver_pick := 1;
     receiver_repicks := []; max_amount_draw := 50000; amount_draw := draw;
     type_pick := 1; phrase_pick := 0; description_suffix := 4321;
     spawn := spawning;
     transfer :=
       {| frequency_pick := 0; end_days := 40; transfer_suffix := 1234;
          start_date := 100; transfer_faulty := no_faults |};
     faulty := faults |}.


(** * Properties *)

(** ** The monad and [get_cursor] *)

Section Preservation.
Variable I : world -> Prop.

Lemma preserves_ret {A} (v : A) : preserves I (ret v).
Proof. intros w H. exact H. Qed.

Lemma preserves_raise {A} : preserves I (@raise A).
Proof. intros w H. exact H. Qed.

Lemma preserves_get_world : preserves I get_world.
Proof. intros w H. exact H. Qed.

Lemma preserves_expect {A} (o : option A) : preserves I (expect o).
Proof. destruct o; intros w H; exact H. Qed.

Lemma preserves_lift_result {A} (r : result A) : preserves I (lift_result r).
Proof. intros w H. exact H. Qed.

Lemma preserves_modify (f : world -> world) :
  (forall w, I w -> I (f w)) -> preserves I (modify f).
Proof. intros Hf w H. apply Hf, H. Qed.

Lemma preserves_bind {A B} (m : M A) (k : A -> M B) :
  preserves I m -> (forall v, preserves I (k v)) -> preserves I (bind m k).
Proof.
  intros Hm Hk w H. unfold bind. specialize (Hm w H).
  destruct (m w) as [[v| |] w']; simpl in *; auto.
  apply Hk, Hm.
Qed.

Lemma preserves_try_except {A} (m : M A) (d : A) :
  preserves I m -> preserves I (try_except m d).
Proof.
  intros Hm w H. unfold try_except. specialize (Hm w H).
  destruct (m w) as [[v| |] w']; simpl in *; auto.
Qed.

Lemma preserves_when (b : bool) (m : M unit) :
  (b = true -> preserves I m) -> preserves I (when b m).
Proof. destruct b; intros Hm; [apply Hm; reflexivity | apply preserves_ret]. Qed.

Lemma preserves_for_each {A} (l : list A) (f : A -> M unit) :
  (forall x, x ∈ l -> preserves I (f x)) -> preserves I (for_each l f).
Proof.
  intros Hf. induction l as [|x l IH]; simpl.
  - apply preserves_ret.
  - apply preserves_bind; [apply Hf; left | intros _].
    apply IH. intros y Hy. apply Hf. right. exact Hy.
Qed.
End Preservation.

Section Everywhere.
Variable P : db -> Prop.

Lemma everywhere_idle w : idle w -> P (store w) -> everywhere P w.
Proof.
  intros Hi Hs. split; [exact Hs |].
  intros p Hp. unfold idle in Hi. rewrite Hp in Hi. contradiction.
Qed.


Lemma everywhere_with_stats s w :
  everywhere P w -> everywhere P (with_stats s w).
Proof. intros H. exact H. Qed.

Lemma everywhere_closed w :
  everywhere P w -> everywhere P (with_conn Closed w).
Proof. intros [H _]. split; [exact H | discriminate]. Qed.

Lemma everywhere_open p w :
  P (store w) -> P p -> everywhere P (with_conn (Open p) w).
Proof.
  intros Hs Hp. split; [exact Hs |].
  simpl. intros p' [= <-]. exact Hp.
Qed.

(** A statement that keeps [P] keeps it everywhere. *)
Lemma preserves_execute {A} faulty (s : stmt) (q : db -> option (A * db)) :
  stable P q -> preserves (everywhere P) (execute faulty s q).
Proof.
  intros Hq w H. unfold execute.
  destruct (conn w) as [|p|] eqn:Hc; simpl; auto.
  destruct (faulty s); simpl; auto.
  destruct (q p) as [[v p']|] eqn:Hp; simpl; auto.
  destruct H as [Hs Hpend].
  apply everywhere_open; [exact Hs |].
  eapply Hq; [apply Hpend; exact Hc | exact Hp].
Qed.

Lemma everywhere_close w : everywhere P w -> everywhere P (close w).
Proof.
  intros H. unfold close. destruct (conn w); auto using everywhere_closed.
Qed.

Lemma everywhere_leave {A} faulty (r : result A * world) :
  everywhere P r.2 -> everywhere P (leave faulty r).2.
Proof.
  destruct r as [[v| |] w]; simpl; intros H; auto using everywhere_close.
  destruct (conn w) as [|p|] eqn:Hc; simpl; auto using everywhere_close.
  destruct (faulty Commit); simpl; auto using everywhere_close.
  apply everywhere_close. destruct H as [_ Hp].
  split; simpl; auto.
Qed.

(** Whatever a block does to the open transaction, [get_cursor] only
    ever makes the committed store a state the block went through. *)
Lemma get_cursor_everywhere {A} faulty (body : M A) w :
  everywhere P w ->
  (forall w1, everywhere P w1 -> entered w w1 -> everywhere P (body w1).2) ->
  everywhere P (get_cursor faulty body w).2.
Proof.
  intros H Hbody. unfold get_cursor, enter.
  destruct (conn w) as [|p|] eqn:Hc.
  - destruct (faulty Connect); simpl.
    + apply everywhere_close, H.
    + apply everywhere_leave, Hbody.
      * apply everywhere_open; apply (proj1 H).
      * unfold entered; simpl; rewrite Hc; auto 10.
  - apply everywhere_leave, Hbody; [exact H |].
    unfold entered; rewrite Hc; auto 10.
  - destruct (faulty Connect); simpl.
    + apply everywhere_close, H.
    + apply everywhere_leave, Hbody.
      * apply everywhere_open; apply (proj1 H).
      * unfold entered; simpl; rewrite Hc; auto 10.
Qed.

Lemma preserves_get_cursor {A} faulty (body : M A) :
  preserves (everywhere P) body ->
  preserves (everywhere P) (get_cursor faulty body).
Proof.
  intros Hb w H. apply get_cursor_everywhere; [exact H |].
  intros w1 H1 _. apply Hb, H1.
Qed.
End Everywhere.

(** ** Conversion *)



(** [round2] gives a nearest decimal with two places, the even one at a
    tie. *)
Lemma round2_rounded x : rounded_to_hundredths x (round2 x).
Proof.
  unfold rounded_to_hundredths, round2.
  pose proof (Qfloor_le (x * 100)) as Hle.
  pose proof (Qlt_floor (x * 100)) as Hlt.
  rewrite inject_Z_plus in Hlt. change (inject_Z 1) with 1%Q in Hlt.
  destruct (_ ?= _)%Q eqn:Hc.
  - apply Qeq_alt in Hc.
    destruct (Z.even (Qfloor (x * 100))) eqn:He.
    + split; [lra | intros _; exact He].
    + rewrite inject_Z_plus. change (inject_Z 1) with 1%Q.
      split; [lra | intros _].
      rewrite Z.even_add, He. reflexivity.
  - apply Qlt_alt in Hc. split; [lra | intros [H | H]; lra].
  - apply Qgt_alt in Hc. rewrite inject_Z_plus.
    change (inject_Z 1) with 1%Q. split; [lra | intros [H | H]; lra].
Qed.

(** Rounding to two places leaves no choice. *)
Lemma rounded_to_hundredths_unique x z1 z2 :
  rounded_to_hundredths x z1 -> rounded_to_hundredths x z2 -> z1 = z2.
Proof.
  intros [[Hl1 Hu1] He1] [[Hl2 Hu2] He2].
  assert (Hd1 : z1 <= z2 + 1)
    by (rewrite Zle_Qle, inject_Z_plus; change (inject_Z 1) with 1%Q; lra).
  assert (Hd2 : z2 <= z1 + 1)
    by (rewrite Zle_Qle, inject_Z_plus; change (inject_Z 1) with 1%Q; lra).
  destruct (Z.eq_dec z1 z2) as [| Hne]; [assumption | exfalso].
  assert (Hcase : z1 = z2 + 1 \/ z2 = z1 + 1) by lia.
  destruct Hcase as [-> | ->].
  - rewrite inject_Z_plus in *. change (inject_Z 1) with 1%Q in *.
    assert (H1 : Z.even (z2 + 1) = true) by (apply He1; right; lra).
    assert (H2 : Z.even z2 = true) by (apply He2; left; lra).
    rewrite Z.even_add, H2 in H1. discriminate.
  - rewrite inject_Z_plus in *. change (inject_Z 1) with 1%Q in *.
    assert (H1 : Z.even z1 = true) by (apply He1; left; lra).
    assert (H2 : Z.even (z1 + 1) = true) by (apply He2; right; lra).
    rewrite Z.even_add, H1 in H2. discriminate.
Qed.


(** *** Signs *)

Lemma b64_value_nonneg m e : (0 <= b64_value (S754_finite false m e))%Q.
Proof.
  simpl. apply Qmult_le_0_compat; [| apply Qpower_0_le]; discriminate.
Qed.

Lemma binary_round_aux_value_nonneg m e l :
  (0 <= b64_value (binary_round_aux 53 1024 false m e l))%Q.
Proof.
  unfold binary_round_aux.
  destruct (shr_fexp 53 1024 m e l) as [mrs e'].
  destruct (shr_fexp 53 1024 _ e' loc_Exact) as [mrs' e''].
  destruct (shr_m mrs') as [|m'|m']; try apply Qle_refl.
  destruct (Z.leb _ _); [apply b64_value_nonneg | apply Qle_refl].
Qed.










(** *** The comparison of line 250 *)


Lemma covers_lt b amount : amount < b -> covers b amount = true.
Proof.
  intros H. unfold covers. case_bool_decide; [lia |].
  case_bool_decide; [reflexivity | lia].
Qed.

Lemma covers_gt b amount : b < amount -> covers b amount = false.
Proof.
  intros H. unfold covers. case_bool_decide; [lia |].
  case_bool_decide; [lia | reflexivity].
Qed.

(** ** Participant selection *)

Lemma choice_elem_of {A} (l : list A) i x : choice l i = Some x -> x ∈ l.
Proof. unfold choice. intros H. eapply list_elem_of_lookup_2, H. Qed.

Lemma choice_is_Some {A} (l : list A) i : l <> [] -> is_Some (choice l i).
Proof.
  intros Hl. unfold choice. apply lookup_lt_is_Some.
  apply Nat.mod_upper_bound. destruct l; [congruence | simpl; lia].
Qed.

Lemma pick_sender_elem_of r pool s :
  pick_sender r pool = Some (Some s) -> s ∈ pool.
Proof.
  unfold pick_sender. destruct (no_sender r); [discriminate |].
  destruct (choice pool (sender_pick r)) eqn:Hc; simpl; intros [= ->].
  eapply choice_elem_of, Hc.
Qed.

Lemma resample_elem_of pool sender_account first repicks receiver_account :
  first ∈ pool ->
  resample pool sender_account first repicks = Ok receiver_account ->
  receiver_account ∈ pool.
Proof.
  revert first. induction repicks as [|i repicks IH]; intros first Hf; simpl.
  - destruct sender_account as [s|]; [case_bool_decide |]; congruence.
  - destruct sender_account as [s|]; [| congruence].
    case_bool_decide; [| congruence].
    destruct (choice pool i) as [a|] eqn:Hc; [| discriminate].
    apply IH. eapply choice_elem_of, Hc.
Qed.

(** Lines 219-220: when the loop ends, the receiver is not the sender. *)
Lemma resample_distinct pool s first repicks receiver_account :
  resample pool (Some s) first repicks = Ok receiver_account ->
  bank_account_id s <> bank_account_id receiver_account.
Proof.
  revert first. induction repicks as [|i repicks IH]; intros first; simpl.
  - case_bool_decide; congruence.
  - case_bool_decide; [| congruence].
    destruct (choice pool i) as [a|]; [apply IH | discriminate].
Qed.

(** The block either stops before it reaches the store, or settles the
    transaction it has drawn. *)
Lemma transaction_block_cases r w :
  (transaction_block r w = (Raise, w) \/ transaction_block r w = (Hang, w)) \/
  exists sender_account first receiver_account transaction_type description,
    pick_sender r (accounts w) = Some sender_account /\
    choice (accounts w) (receiver_pick r) = Some first /\
    resample (accounts w) sender_account first (receiver_repicks r)
      = Ok receiver_account /\
    pick_type r (transaction_types w) sender_account = Some transaction_type /\
    describe r transaction_type = Some description /\
    transaction_block r w =
      settle r sender_account receiver_account (amount_draw r + 10000)
        (convert sender_account receiver_account (amount_draw r + 10000))
        description transaction_type w.
Proof.
  unfold transaction_block, bind, get_world.
  destruct (pick_sender r (accounts w)) as [sender_account|] eqn:Hs; simpl;
    [| auto].
  destruct (choice (accounts w) (receiver_pick r)) as [first|] eqn:Hf; simpl;
    [| auto].
  unfold lift_result.
  destruct (resample _ _ _ _) as [receiver_account| |] eqn:Hr; [| auto ..].
  destruct (pick_type r _ _) as [transaction_type|] eqn:Ht; simpl; [| auto].
  destruct (describe r transaction_type) as [description|] eqn:Hd; simpl;
    [| auto].
  right. exists sender_account, first, receiver_account, transaction_type,
    description. auto 10.
Qed.

Lemma transaction_block_run r w sender_account first receiver_account
    transaction_type description :
  pick_sender r (accounts w) = Some sender_account ->
  choice (accounts w) (receiver_pick r) = Some first ->
  resample (accounts w) sender_account first (receiver_repicks r)
    = Ok receiver_account ->
  pick_type r (transaction_types w) sender_account = Some transaction_type ->
  describe r transaction_type = Some description ->
  transaction_block r w =
    settle r sender_account receiver_account (amount_draw r + 10000)
      (convert sender_account receiver_account (amount_draw r + 10000))
      description transaction_type w.
Proof.
  intros Hs Hf Hr Ht Hd.
  unfold transaction_block, bind, get_world, lift_result.
  rewrite Hs. simpl. rewrite Hf. simpl. rewrite Hr, Ht. simpl.
  rewrite Hd. reflexivity.
Qed.

(** ** Invariants of the ledger engine *)

Section Ledger.
Variable P : db -> Prop.
Hypothesis scheduled_stable : forall t, stable P (insert_scheduled_transfer t).

Lemma create_scheduled_transfer_preserves r sender_account receiver_account
    amount :
  preserves (everywhere P)
    (create_scheduled_transfer r sender_account receiver_account amount).
Proof.
  unfold create_scheduled_transfer.
  apply preserves_try_except, preserves_get_cursor.
  apply preserves_bind; [apply preserves_expect | intros frequency].
  apply preserves_bind.
  - apply preserves_execute, scheduled_stable.
  - intros _. apply preserves_modify. auto using everywhere_with_stats.
Qed.


End Ledger.

Lemma try_except_world {A} (m : M A) (d : A) w :
  (try_except m d w).2 = (m w).2.
Proof. unfold try_except. destruct (m w) as [[v| |] w']; reflexivity. Qed.

Lemma update_balance_transactions id delta d v d' :
  update_balance id delta d = Some (v, d') ->
  db_transactions d' = db_transactions d.
Proof.
  unfold update_balance. destruct (db_bank_accounts d !! id); intros [= <- <-];
    reflexivity.
Qed.

(** ** Conversion rule of the records written *)




(** C5, as stated: 100.00 from a USD account to a EUR account is
    converted to 85.00.  It is not: [100.0 * 1.0 / 0.85] is 117.647...
    and rounds to 117.65. *)
Lemma scenario_c_is_not_85 :
  convert (Some (Account 1 None 50000 (Some "USD") "VISA000001"))
    (Account 2 None 0 (Some "EUR") "VISA000002") 10000 <> 8500.
Proof. vm_compute. discriminate. Qed.

(** C5, amended.  With a sender in USD (rate 1.0), a receiver in EUR
    (rate 0.85) and an amount of 100.00, the converted amount is 117.65:
    the amount is multiplied by the sender's rate and divided by the
    receiver's. *)
Theorem scenario_c_converted_amount sender_account receiver_account :
  currency sender_account = Some "USD" ->
  currency receiver_account = Some "EUR" ->
  convert (Some sender_account) receiver_account 10000 = 11765.
Proof.
  intros Hs Hr. unfold convert, rate_of. rewrite Hs, Hr. vm_compute.
  reflexivity.
Qed.

Lemma scenario_c_converted_amount_witness :
  convert (Some (Account 1 None 50000 (Some "USD") "VISA000001"))
    (Account 2 None 0 (Some "EUR") "VISA000002") 10000 = 11765.
Proof. apply scenario_c_converted_amount; reflexivity. Defined.

(** Two amounts whose exact quotient lies halfway between two
    hundredths, 101.10 EUR in USD (85.935) and 112.50 GBP in RUB
    (1.095): the binary64 quotient lies just below the half, and
    [round] takes it down, to 85.93 and 1.09. *)
Example convert_near_ties :
  convert (Some (Account 1 None 50000 (Some "EUR") "VISA000001"))
    (Account 2 None 0 (Some "USD") "VISA000002") 10110 = 8593 /\
  convert (Some (Account 1 None 50000 (Some "GBP") "VISA000001"))
    (Account 2 None 0 (Some "RUB") "VISA000002") 11250 = 109.
Proof. split; vm_compute; reflexivity. Qed.

(** The sum of line 223 against the float of the same decimal:
    [8.21 + 100] is above [float(108.21)], [20.00 + 100] is
    [float(120.00)]. *)
Example covers_at_equality :
  covers 10821 10821 = false /\ covers 12000 12000 = true.
Proof. split; vm_compute; reflexivity. Qed.

(** Away from equality the floats compare as the decimals do: checked
    here next to the boundary, for sixty-four consecutive amounts from
    101.00, from 5 000.00, from 1 000 000.00 and from 10^10. *)
Example covers_next_to_equality :
  forallb
    (fun base => forallb (fun i => covers_as_binary64 (base + Z.of_nat i))
                   (seq 0 64))
    [10100; 500000; 100000000; 1000000000000] = true.
Proof. vm_compute. reflexivity. Qed.

(** ** Running a block forward *)

Lemma bind_run {A B} (m : M A) (k : A -> M B) w v w' :
  m w = (Ok v, w') -> bind m k w = k v w'.
Proof. intros H. unfold bind. rewrite H. reflexivity. Qed.

Lemma bind_raise {A B} (m : M A) (k : A -> M B) w w' :
  m w = (Raise, w') -> bind m k w = (Raise, w').
Proof. intros H. unfold bind. rewrite H. reflexivity. Qed.

Lemma execute_run {A} faulty s (q : db -> option (A * db)) w p v p' :
  conn w = Open p -> faulty s = false -> q p = Some (v, p') ->
  execute faulty s q w = (Ok v, with_conn (Open p') w).
Proof. intros Hc Hf Hq. unfold execute. rewrite Hc, Hf, Hq. reflexivity. Qed.

Lemma execute_faulty {A} faulty s (q : db -> option (A * db)) w p :
  conn w = Open p -> faulty s = true -> execute faulty s q w = (Raise, w).
Proof. intros Hc Hf. unfold execute. rewrite Hc, Hf. reflexivity. Qed.

(** An operation called by the driver loop: the block runs on a fresh
    transaction and the handler swallows the exception. *)
Lemma get_cursor_idle {A} faulty (body : M A) w :
  idle w -> faulty Connect = false ->
  get_cursor faulty body w = leave faulty (body (with_conn (Open (store w)) w)).
Proof.
  intros Hi Hf. unfold get_cursor, enter. unfold idle in Hi.
  destruct (conn w); [| contradiction |]; rewrite Hf; reflexivity.
Qed.

Lemma generate_transaction_idle r w :
  idle w -> (2 <= length (accounts w))%nat -> faulty r Connect = false ->
  generate_transaction r w =
    try_except
      (fun w => leave (faulty r) (transaction_block r (with_conn (Open (store w)) w)))
      tt w.
Proof.
  intros Hi Hl Hf. unfold generate_transaction, bind, get_world.
  case_bool_decide; [lia |].
  unfold try_except. rewrite get_cursor_idle by assumption. reflexivity.
Qed.

(** ** Insufficient funds *)




(** ** Completed transactions *)

Lemma create_scheduled_transfer_run r sender_account receiver_account amount
    w p :
  conn w = Open p ->
  transfer_faulty r InsertScheduledTransfer = false ->
  transfer_faulty r Commit = false ->
  exists w',
    create_scheduled_transfer r sender_account receiver_account amount w
      = (Ok tt, w') /\
    accounts w' = accounts w /\ conn w' = Closed /\
    db_bank_accounts (store w') = db_bank_accounts p /\
    db_transactions (store w') = db_transactions p.
Proof.
  intros Hc Hi Hcommit.
  unfold create_scheduled_transfer, try_except, get_cursor, enter.
  rewrite Hc.
  destruct (choice_is_Some ["weekly"; "monthly"] (frequency_pick r))
    as [frequency Hfreq]; [discriminate |].
  unfold bind at 1. rewrite Hfreq. simpl expect. unfold ret at 1.
  erewrite bind_run by (eapply execute_run; [exact Hc | exact Hi | reflexivity]).
  unfold modify, leave. simpl conn. rewrite Hcommit.
  eexists. split; [reflexivity |]. simpl. auto.
Qed.

(** Lines 287-333 when nothing fails: the receiver's row gets the
    converted amount, its cache entry the balance the store returns,
    and the [completed] record is appended; the block is then still
    open, or committed by [create_scheduled_transfer]. *)
Lemma credit_and_record_run r sender_account receiver_account amount
    converted_amount description transaction_type w p row :
  conn w = Open p -> quiet r ->
  db_bank_accounts p !! bank_account_id receiver_account = Some row ->
  exists w' p',
    credit_and_record r sender_account receiver_account amount
      converted_amount description transaction_type w = (Ok tt, w') /\
    reaches w' p' /\
    accounts w' =
      update_cached_balance (bank_account_id receiver_account)
        (ba_balance row + converted_amount) (accounts w) /\
    db_bank_accounts p' =
      <[bank_account_id receiver_account :=
          with_ba_balance (ba_balance row + converted_amount) row]>
        (db_bank_accounts p) /\
    db_transactions p' =
      (db_transactions p ++
       [transaction_record sender_account receiver_account amount
          converted_amount description transaction_type completed])%list.
Proof.
  intros Hc Hq Hrow. unfold credit_and_record.
  erewrite bind_run
    by (eapply execute_run;
        [exact Hc | apply Hq | unfold update_balance; rewrite Hrow; reflexivity]).
  unfold bind at 1. simpl expect. unfold ret at 1.
  unfold bind at 1, modify at 1.
  erewrite bind_run
    by (eapply execute_run; [reflexivity | apply Hq | reflexivity]).
  unfold bind at 1, modify at 1.
  set (p1 := with_transactions _ _).
  set (w1 := with_stats _ _).
  assert (Hc1 : conn w1 = Open p1) by reflexivity.
  assert (Hstay : exists w' p',
    (Ok tt, w1) = (Ok tt, w') /\ reaches w' p' /\
    accounts w' = accounts w1 /\
    db_bank_accounts p' = db_bank_accounts p1 /\
    db_transactions p' = db_transactions p1).
  { exists w1, p1. repeat split; auto. left. exact Hc1. }
  destruct sender_account as [s|]; [| exact Hstay].
  destruct (spawn r); [| exact Hstay].
  destruct (create_scheduled_transfer_run (transfer r) s receiver_account
              amount w1 p1 Hc1 (proj2 (Hq _)) (proj2 (Hq _)))
    as (w' & Heq & Hacc & Hclosed & Hba & Htx).
  exists w', (store w'). split; [exact Heq |].
  split; [right; auto |].
  split; [rewrite Hacc; reflexivity |].
  split; [rewrite Hba; reflexivity | rewrite Htx; reflexivity].
Qed.

(** Leaving a block that is still open, or that an inner [get_cursor]
    has committed and closed: either way the store holds what the block
    reached (in the second case the outer [commit] raises, after the
    fact). *)
Lemma leave_reached {A} faulty (v : A) w p :
  faulty Commit = false -> reaches w p ->
  store (leave faulty (Ok v, w)).2 = p /\
  accounts (leave faulty (Ok v, w)).2 = accounts w.
Proof.
  intros Hf [Hc | [Hc Hs]]; unfold leave; rewrite Hc.
  - rewrite Hf. unfold close. simpl. rewrite Hc. split; reflexivity.
  - unfold close. rewrite Hc. split; [exact Hs | reflexivity].
Qed.






(** ** Deposits *)

Lemma deposit_or_found types picked t :
  t ∈ types -> t.2 = "deposit" ->
  (deposit_or types picked).2 = "deposit" /\ deposit_or types picked ∈ types.
Proof.
  intros Ht Hn. unfold deposit_or.
  destruct (filter (fun t => t.2 = "deposit") types) as [|t' l] eqn:Hfl.
  - assert (Hin : t ∈ filter (fun t => t.2 = "deposit") types)
      by (apply list_elem_of_filter; auto).
    rewrite Hfl in Hin. inversion Hin.
  - simpl.
    assert (Hin : t' ∈ filter (fun t => t.2 = "deposit") types)
      by (rewrite Hfl; left).
    apply list_elem_of_filter in Hin. exact Hin.
Qed.

Lemma deposit_or_missing types picked :
  (forall t, t ∈ types -> t.2 <> "deposit") -> deposit_or types picked = picked.
Proof.
  intros Hno. unfold deposit_or.
  destruct (filter (fun t => t.2 = "deposit") types) as [|t' l] eqn:Hfl;
    [reflexivity |].
  assert (Hin : t' ∈ filter (fun t => t.2 = "deposit") types)
    by (rewrite Hfl; left).
  apply list_elem_of_filter in Hin. destruct Hin as [Hn Hin].
  destruct (Hno t' Hin Hn).
Qed.

(** C6. Without a sender: the type is a ['deposit'] type of the lookup
    set whenever there is one and the random pick otherwise; whatever
    the amount, no sufficiency check stands in the way; when the
    receiver's row exists and no store error occurs, the receiver's
    stored balance goes up by exactly the drawn amount and the one
    record appended has status [completed] and no sender. *)
Theorem generate_transaction_deposit r w receiver_account picked description
    receiver_row :
  idle w -> (2 <= length (accounts w))%nat -> quiet r ->
  no_sender r = true ->
  choice (accounts w) (receiver_pick r) = Some receiver_account ->
  choice (transaction_types w) (type_pick r) = Some picked ->
  describe r (deposit_or (transaction_types w) picked) = Some description ->
  db_bank_accounts (store w) !! bank_account_id receiver_account
    = Some receiver_row ->
  let amount := amount_draw r + 10000 in
  let transaction_type := deposit_or (transaction_types w) picked in
  let w' := (generate_transaction r w).2 in
  (forall t, t ∈ transaction_types w -> t.2 = "deposit" ->
     transaction_type.2 = "deposit" /\
     transaction_type ∈ transaction_types w) /\
  ((forall t, t ∈ transaction_types w -> t.2 <> "deposit") ->
     transaction_type = picked) /\
  stored_balance (bank_account_id receiver_account) (store w')
    = Some (ba_balance receiver_row + amount) /\
  db_transactions (store w') =
    (db_transactions (store w) ++
     [{| tx_sender_account_id := None;
         tx_receiver_account_id := bank_account_id receiver_account;
         tx_amount := amount;
         tx_converted_amount := amount;
         tx_description := description;
         tx_type_id := transaction_type.1;
         tx_status := completed |}])%list.
Proof.
  intros Hi Hl Hq Hns Hf Ht Hd Hrow amount transaction_type w'.
  split; [intros t; apply deposit_or_found |].
  split; [apply deposit_or_missing |].
  destruct (credit_and_record_run r None receiver_account amount amount
              description transaction_type (with_conn (Open (store w)) w)
              (store w) receiver_row eq_refl Hq Hrow)
    as (w1 & p1 & Heq & Hreach & _ & Hba & Htx).
  destruct (leave_reached (faulty r) tt w1 p1 (proj1 (Hq _)) Hreach)
    as [Hst _].
  subst w'. rewrite generate_transaction_idle by (auto; apply Hq).
  rewrite try_except_world.
  rewrite (transaction_block_run r _ None receiver_account receiver_account
             transaction_type description).
  - unfold settle, convert. fold amount. rewrite Heq, Hst.
    unfold stored_balance. rewrite Hba, Htx, lookup_insert_eq.
    split; reflexivity.
  - unfold pick_sender. rewrite Hns. reflexivity.
  - exact Hf.
  - destruct (receiver_repicks r); reflexivity.
  - unfold pick_type. simpl. rewrite Ht. reflexivity.
  - exact Hd.
Qed.

Lemma generate_transaction_deposit_witness :
  let w := sample_world 50000 50000 "USD" "EUR" in
  let w' := (generate_transaction (sample_draws true 15000 true no_faults) w).2 in
  (forall t, t ∈ transaction_types w -> t.2 = "deposit" ->
     (1, "deposit").2 = "deposit" /\ (1, "deposit") ∈ transaction_types w) /\
  ((forall t, t ∈ transaction_types w -> t.2 <> "deposit") ->
     (1, "deposit") = (2, "transfer")) /\
  stored_balance 2 (store w') = Some (1000 + 25000) /\
  db_transactions (store w') =
    [{| tx_sender_account_id := None; tx_receiver_account_id := 2;
        tx_amount := 25000; tx_converted_amount := 25000;
        tx_description := "ATM deposit #4321"; tx_type_id := 1;
        tx_status := completed |}].
Proof.
  apply (generate_transaction_deposit
           (sample_draws true 15000 true no_faults)
           (sample_world 50000 50000 "USD" "EUR")
           (Account 2 (Some 8) 1000 (Some "EUR") "VISA000002")
           (2, "transfer") "ATM deposit #4321"
           (BankAccountRow "VISA000002" 1000 "VISA" (Some "EUR") 8));
    first [ exact I | reflexivity | simpl; lia
          | intros s; split; reflexivity ].
Defined.

(** ** The cache after a store error *)








Lemma choice_frequency i :
  exists frequency,
    choice ["weekly"; "monthly"] i = Some frequency /\
    (frequency = "weekly" \/ frequency = "monthly").
Proof.
  unfold choice. change (length ["weekly"; "monthly"]) with 2%nat.
  pose proof (Nat.mod_upper_bound i 2) as Hlt.
  destruct (i mod 2)%nat as [|[|n]].
  - exists "weekly". auto.
  - exists "monthly". auto.
  - lia.
Qed.






(** ** Non-negative balances *)











(** ** What the sufficiency check reads *)




(** ** Achievements *)

Lemma with_user_achievements_same d :
  with_user_achievements (db_user_achievements d) d = d.
Proof. destruct d. reflexivity. Qed.

Lemma add_grants_held G d : G ⊆ db_user_achievements d -> add_grants G d = d.
Proof.
  intros HG. unfold add_grants.
  replace (db_user_achievements d ∪ G) with (db_user_achievements d)
    by set_solver.
  apply with_user_achievements_same.
Qed.

Lemma add_grants_add_grants G1 G2 d :
  add_grants G2 (add_grants G1 d) = add_grants (G1 ∪ G2) d.
Proof.
  unfold add_grants. simpl. unfold with_user_achievements. simpl.
  f_equal. set_solver.
Qed.

Lemma with_conn_same w p : conn w = Open p -> with_conn (Open p) w = w.
Proof. destruct w. simpl. intros ->. reflexivity. Qed.

(** An insertion of pairs that are all held changes nothing and does
    not fail. *)
Lemma insert_grant_held u n d :
  selected u n d ⊆ db_user_achievements d -> insert_grant u n d = Some (tt, d).
Proof.
  intros H. unfold insert_grant. fold (add_grants (selected u n d) d).
  rewrite add_grants_held by exact H. reflexivity.
Qed.

Lemma when_grant_run faulty b u n w p :
  conn w = Open p -> faulty (InsertGrant u n) = false ->
  when b (grant faulty u n) w =
    (Ok tt, with_conn (Open (add_grants (if b then selected u n p else ∅) p)) w).
Proof.
  intros Hc Hf. destruct b; simpl.
  - unfold grant. erewrite execute_run by (try eassumption; reflexivity).
    reflexivity.
  - rewrite add_grants_held by set_solver.
    rewrite with_conn_same by exact Hc. reflexivity.
Qed.

(** One turn of the loop of lines 394-414. *)
Lemma rules_run faulty user w p :
  conn w = Open p -> (forall s, faulty s = false) ->
  (when (bool_decide (1 <= tx_count user))
     (grant faulty (us_user_id user) "First Transaction") ;;;
   when (bool_decide (50 <= tx_count user))
     (grant faulty (us_user_id user) "Active User") ;;;
   when (bool_decide (1000000 <= total_received user))
     (grant faulty (us_user_id user) "Savings Master"))%py w =
  (Ok tt, with_conn (Open (add_grants (rule_grants p user) p)) w).
Proof.
  intros Hc Hf.
  erewrite bind_run by (apply when_grant_run; [exact Hc | apply Hf]).
  erewrite bind_run by (apply when_grant_run; [reflexivity | apply Hf]).
  erewrite when_grant_run by (first [reflexivity | apply Hf]).
  rewrite !add_grants_add_grants. unfold rule_grants.
  rewrite (assoc_L (∪)). reflexivity.
Qed.

Lemma for_each_rules_run faulty l w p :
  conn w = Open p -> (forall s, faulty s = false) ->
  for_each l (fun user =>
    when (bool_decide (1 <= tx_count user))
      (grant faulty (us_user_id user) "First Transaction") ;;;
    when (bool_decide (50 <= tx_count user))
      (grant faulty (us_user_id user) "Active User") ;;;
    when (bool_decide (1000000 <= total_received user))
      (grant faulty (us_user_id user) "Savings Master"))%py w =
  (Ok tt, with_conn (Open (add_grants (⋃ (rule_grants p <$> l)) p)) w).
Proof.
  intros Hc Hf. revert w p Hc.
  induction l as [|user l IH]; intros w p Hc; simpl.
  - rewrite add_grants_held by set_solver.
    rewrite with_conn_same by exact Hc. reflexivity.
  - erewrite bind_run by (apply rules_run; [exact Hc | exact Hf]).
    erewrite IH by reflexivity.
    rewrite add_grants_add_grants. reflexivity.
Qed.

(** A pass that meets no store error commits exactly the pairs due. *)
Lemma update_achievements_run faulty w :
  idle w -> (forall s, faulty s = false) ->
  store (update_achievements faulty w).2 = add_grants (due (store w)) (store w) /\
  idle (update_achievements faulty w).2.
Proof.
  intros Hi Hf. unfold update_achievements.
  rewrite try_except_world, get_cursor_idle by auto.
  unfold achievements_block.
  erewrite bind_run
    by (eapply execute_run; [reflexivity | apply Hf | reflexivity]).
  erewrite for_each_rules_run by (first [reflexivity | exact Hf]).
  unfold leave. simpl conn. rewrite Hf. unfold close. simpl.
  split; [reflexivity | exact I].
Qed.

(** The pairs due are held once they have been added. *)
Lemma rule_grants_held d user :
  user ∈ user_stats_rows d ->
  rule_grants d user ⊆ db_user_achievements (add_grants (due d) d).
Proof.
  intros Hin. unfold add_grants, due. simpl.
  assert (rule_grants d user ⊆ ⋃ (rule_grants d <$> user_stats_rows d)).
  { intros x Hx. apply elem_of_union_list. exists (rule_grants d user).
    split; [| exact Hx]. apply list_elem_of_fmap. eauto. }
  set_solver.
Qed.

(** A pass over a store that holds every pair due leaves it as it is,
    whatever store errors it meets. *)
Lemma update_achievements_saturated faulty w d :
  idle w -> store w = add_grants (due d) d ->
  store (update_achievements faulty w).2 = store w.
Proof.
  intros Hi Hst.
  set (P := fun d' : db => d' = add_grants (due d) d).
  assert (Hw : everywhere P w) by (apply everywhere_idle; assumption).
  cut (everywhere P (update_achievements faulty w).2).
  { intros [H _]. rewrite H, Hst. reflexivity. }
  unfold update_achievements. rewrite try_except_world.
  apply preserves_get_cursor; [| exact Hw].
  clear w Hi Hst Hw. intros w Hw. unfold achievements_block.
  unfold bind at 1, execute.
  destruct (conn w) as [|p|] eqn:Hc; [exact Hw | | exact Hw].
  destruct (faulty SelectUserStats); [exact Hw |]. unfold select_user_stats.
  assert (Hp : p = add_grants (due d) d) by (apply (proj2 Hw), Hc).
  rewrite with_conn_same by exact Hc.
  apply preserves_for_each; [| exact Hw].
  intros user Huser.
  assert (Hheld : rule_grants d user ⊆ db_user_achievements (add_grants (due d) d)).
  { apply rule_grants_held. rewrite Hp in Huser. exact Huser. }
  assert (Hstable : forall n,
    selected (us_user_id user) n d ⊆ db_user_achievements (add_grants (due d) d) ->
    stable P (insert_grant (us_user_id user) n)).
  { intros n Hn d1 v d2 -> Hins.
    rewrite insert_grant_held in Hins by exact Hn.
    injection Hins as _ <-. reflexivity. }
  unfold rule_grants in Hheld.
  apply preserves_bind; [| intros _; apply preserves_bind; [| intros _]];
    apply preserves_when; intros Hb; apply preserves_execute, Hstable;
    rewrite Hb in Hheld; set_solver.
Qed.

(** C7. After a pass of [update_achievements] that met no store error, a
    second pass, with nothing done in between and whatever store errors
    it meets, leaves the store as it is: no grant is added.  And an
    insertion of pairs that are already held is accepted and changes
    nothing. *)
Theorem update_achievements_idempotent faulty1 faulty2 w :
  idle w -> (forall s, faulty1 s = false) ->
  let w1 := (update_achievements faulty1 w).2 in
  let w2 := (update_achievements faulty2 w1).2 in
  store w2 = store w1 /\
  db_user_achievements (store w2) = db_user_achievements (store w1) /\
  forall u n d,
    selected u n d ⊆ db_user_achievements d -> insert_grant u n d = Some (tt, d).
Proof.
  intros Hi Hf w1 w2.
  destruct (update_achievements_run faulty1 w Hi Hf) as [Hst Hi1].
  assert (H2 : store w2 = store w1)
    by (eapply update_achievements_saturated; eassumption).
  split; [exact H2 |]. split; [rewrite H2; reflexivity |].
  apply insert_grant_held.
Qed.

Lemma update_achievements_idempotent_witness :
  let w := (generate_transaction (sample_draws true 15000 false no_faults)
              (sample_world 50000 50000 "USD" "USD")).2 in
  let w1 := (update_achievements no_faults w).2 in
  let w2 := (update_achievements insert_fails w1).2 in
  store w2 = store w1 /\
  db_user_achievements (store w2) = db_user_achievements (store w1) /\
  forall u n d,
    selected u n d ⊆ db_user_achievements d -> insert_grant u n d = Some (tt, d).
Proof.
  apply (update_achievements_idempotent no_faults insert_fails
           (generate_transaction (sample_draws true 15000 false no_faults)
              (sample_world 50000 50000 "USD" "USD")).2).
  - exact I.
  - intros s. reflexivity.
Defined.

(** Scenario E: a user with one received transaction and no grant gets
    "First Transaction" once, however often the evaluator runs. *)
Example scenario_e :
  let w := (generate_transaction (sample_draws true 15000 false no_faults)
              (sample_world 50000 50000 "USD" "USD")).2 in
  let w1 := (update_achievements no_faults w).2 in
  let w2 := (update_achievements no_faults w1).2 in
  elements (db_user_achievements (store w)) = [] /\
  elements (db_user_achievements (store w1)) = [(8, 1)] /\
  elements (db_user_achievements (store w2)) = [(8, 1)].
Proof. repeat split; vm_compute; reflexivity. Qed.

(** ** Account numbers *)

Lemma uint_of_string_zeros k s d :
  NilEmpty.uint_of_string s = Some d ->
  exists d', NilEmpty.uint_of_string (zeros k +:+ s) = Some d' /\
             N.of_uint d' = N.of_uint d.
Proof.
  intros Hs. induction k as [|k (d' & Hd' & Hv)]; simpl.
  - exists d. auto.
  - exists (D0 d'). rewrite Hd'. split; [reflexivity | exact Hv].
Qed.

(** Reading back a zero-padded number gives the number. *)
Lemma digits_value_zfill width n : digits_value (zfill width (digits n)) = Some n.
Proof.
  unfold digits_value, zfill, digits.
  destruct (uint_of_string_zeros
              (width - String.length (NilEmpty.string_of_uint (N.to_uint n)))
              _ _ (NilEmpty.usu (N.to_uint n))) as (d' & -> & Hv).
  simpl. rewrite Hv, DecimalN.Unsigned.of_to. reflexivity.
Qed.

Lemma digits_value_minus s : digits_value ("-" +:+ s) = None.
Proof.
  unfold digits_value. change ("-" +:+ s) with (String "-" s).
  cbn [NilEmpty.uint_of_string].
  destruct (NilEmpty.uint_of_string s); reflexivity.
Qed.

(** [f"{n:06d}"] tells numbers apart. *)
Lemma format_06d_inj n m : format_06d n = format_06d m -> n = m.
Proof.
  unfold format_06d. intros Heq.
  repeat case_bool_decide.
  - change (String "-" (zfill 5 (digits (Z.to_N (- n))))
            = String "-" (zfill 5 (digits (Z.to_N (- m))))) in Heq.
    injection Heq as H'.
    apply (f_equal digits_value) in H'.
    rewrite !digits_value_zfill in H'.
    assert (Z.to_N (- n) = Z.to_N (- m)) by congruence. lia.
  - apply (f_equal digits_value) in Heq.
    rewrite digits_value_minus, digits_value_zfill in Heq. discriminate.
  - apply (f_equal digits_value) in Heq.
    rewrite digits_value_minus, digits_value_zfill in Heq. discriminate.
  - apply (f_equal digits_value) in Heq.
    rewrite !digits_value_zfill in Heq.
    assert (Z.to_N n = Z.to_N m) by congruence. lia.
Qed.

Lemma append_inv_head (s a b : string) : s +:+ a = s +:+ b -> a = b.
Proof. induction s as [|c s IH]; simpl; [auto |]. intros [= H]. auto. Qed.

Lemma number_for_inj payment_system n m :
  number_for payment_system n = number_for payment_system m -> n = m.
Proof.
  unfold number_for. intros H.
  apply append_inv_head, format_06d_inj in H. exact H.
Qed.

(** ** Blocks, step by step *)

Lemma bind_Ok_inv {A B} (m : M A) (k : A -> M B) w v w' :
  bind m k w = (Ok v, w') ->
  exists u w1, m w = (Ok u, w1) /\ k u w1 = (Ok v, w').
Proof.
  unfold bind. destruct (m w) as [[u| |] w1]; intros H; try discriminate.
  eauto.
Qed.

Lemma expect_Ok_inv {A} (o : option A) w v w' :
  expect o w = (Ok v, w') -> o = Some v /\ w' = w.
Proof. destruct o; simpl; intros [= <- <-]; auto. Qed.

Lemma execute_Ok_inv {A} faulty s (q : db -> option (A * db)) w v w' :
  execute faulty s q w = (Ok v, w') ->
  exists p p', conn w = Open p /\ q p = Some (v, p') /\
               w' = with_conn (Open p') w.
Proof.
  unfold execute. destruct (conn w) as [|p|] eqn:Hc; try discriminate.
  destruct (faulty s); try discriminate.
  destruct (q p) as [[v' p']|] eqn:Hq; try discriminate.
  intros [= <- <-]. eauto.
Qed.

Section Termination.

Lemma terminates_ret {A} (v : A) : terminates (ret v).
Proof. intros w. discriminate. Qed.

Lemma terminates_expect {A} (o : option A) : terminates (expect o).
Proof. destruct o; intros w; discriminate. Qed.

Lemma terminates_get_world : terminates get_world.
Proof. intros w. discriminate. Qed.

Lemma terminates_modify f : terminates (modify f).
Proof. intros w. discriminate. Qed.

Lemma terminates_execute {A} faulty s (q : db -> option (A * db)) :
  terminates (execute faulty s q).
Proof.
  intros w. unfold execute. destruct (conn w) as [|p|]; try discriminate.
  destruct (faulty s); try discriminate.
  destruct (q p) as [[v p']|]; discriminate.
Qed.

Lemma terminates_bind {A B} (m : M A) (k : A -> M B) :
  terminates m -> (forall v, terminates (k v)) -> terminates (bind m k).
Proof.
  intros Hm Hk w. unfold bind. specialize (Hm w).
  destruct (m w) as [[v| |] w']; simpl in *; [apply Hk | discriminate | congruence].
Qed.

Lemma terminates_when b (m : M unit) : terminates m -> terminates (when b m).
Proof. destruct b; [auto | intros _; apply terminates_ret]. Qed.

Lemma terminates_for_each {A} (l : list A) (f : A -> M unit) :
  (forall x, terminates (f x)) -> terminates (for_each l f).
Proof.
  intros Hf. induction l as [|x l IH]; simpl.
  - apply terminates_ret.
  - apply terminates_bind; [apply Hf | intros _; exact IH].
Qed.

Lemma terminates_get_cursor {A} faulty (body : M A) :
  terminates body -> terminates (get_cursor faulty body).
Proof.
  intros Hb w. unfold get_cursor, enter.
  assert (Hl : forall w1, (leave faulty (body w1)).1 <> Hang).
  { intros w1. specialize (Hb w1). unfold leave.
    destruct (body w1) as [[v| |] w2]; simpl in *; try congruence.
    destruct (conn w2); try discriminate.
    destruct (faulty Commit); discriminate. }
  destruct (conn w); [| apply Hl |];
    (destruct (faulty Connect); [discriminate | apply Hl]).
Qed.

Lemma terminates_try_except {A} (m : M A) (d : A) :
  terminates m -> terminates (try_except m d).
Proof.
  intros Hm w. unfold try_except. specialize (Hm w).
  destruct (m w) as [[v| |] w']; simpl in *; congruence.
Qed.

End Termination.

(** [get_cursor] never leaves a connection open behind it: whether the
    block returns, raises, or the connection or the commit fails, the
    [finally] clause has closed what there was. *)
Lemma get_cursor_closes {A} faulty (body : M A) w :
  (get_cursor faulty body w).1 <> Hang -> idle (get_cursor faulty body w).2.
Proof.
  assert (Hclose : forall w', idle (close w')).
  { intros w'. unfold close, idle. destruct (conn w') eqn:Hc; simpl; auto.
    rewrite Hc. exact I. }
  unfold get_cursor, enter.
  assert (Hl : forall w1, (leave faulty (body w1)).1 <> Hang ->
                          idle (leave faulty (body w1)).2).
  { intros w1. unfold leave.
    destruct (body w1) as [[v| |] w2]; simpl; [| auto | congruence].
    destruct (conn w2); simpl; auto.
    destruct (faulty Commit); simpl; auto. }
  destruct (conn w); [| apply Hl |];
    (destruct (faulty Connect); [intros _; apply Hclose | apply Hl]).
Qed.

(** ** [create_account] *)

Lemma preserves_execute_conn (I : world -> Prop) {A} faulty s
    (q : db -> option (A * db)) :
  (forall c w, I w -> I (with_conn c w)) -> preserves I (execute faulty s q).
Proof.
  intros HI w Hw. unfold execute.
  destruct (conn w) as [|p|]; simpl; auto.
  destruct (faulty s); simpl; auto.
  destruct (q p) as [[v p']|]; simpl; auto.
Qed.

Lemma account_block_terminates r : terminates (account_block r).
Proof.
  unfold account_block.
  repeat first
    [ apply terminates_ret | apply terminates_expect
    | apply terminates_get_world | apply terminates_modify
    | apply terminates_execute
    | apply terminates_bind; [| intros ?] ].
  destruct (with_goal r);
    repeat first
      [ apply terminates_ret | apply terminates_expect
      | apply terminates_execute
      | apply terminates_bind; [| intros ?] ].
Qed.

(** The block never commits by itself and leaves the cached rails and
    users alone. *)
Lemma account_block_frame r d rails us :
  preserves
    (fun w => store w = d /\ payment_systems w = rails /\ users w = us)
    (account_block r).
Proof.
  unfold account_block.
  repeat first
    [ apply preserves_ret | apply preserves_expect
    | apply preserves_get_world
    | apply preserves_modify; intros ? ?; assumption
    | apply preserves_execute_conn; intros ? ? ?; assumption
    | apply preserves_bind; [| intros ?] ].
  destruct (with_goal r);
    repeat first
      [ apply preserves_ret | apply preserves_expect
      | apply preserves_execute_conn; intros ? ? ?; assumption
      | apply preserves_bind; [| intros ?] ].
Qed.

(** What the block has done when it ends normally. *)
Lemma account_block_Ok r w p v w' :
  conn w = Open p ->
  account_block r w = (Ok v, w') ->
  exists owner payment_system last_number cur p',
    choice (users w) (owner_pick r) = Some owner /\
    choice (payment_systems w) (payment_system_pick r) = Some payment_system /\
    db_payment_system p !! payment_system.1 = Some last_number /\
    db_bank_accounts p !! assigned_id r = None /\
    v = Some {| bank_account_id := assigned_id r; owner_id := None;
                balance := balance_draw r; currency := Some cur;
                account_number := number_for payment_system last_number |} /\
    conn w' = Open p' /\
    db_payment_system p' = alter Z.succ payment_system.1 (db_payment_system p) /\
    db_bank_accounts p' =
      <[assigned_id r := new_bank_account r payment_system last_number cur owner]>
        (db_bank_accounts p) /\
    db_user_bank_accounts p' =
      (db_user_bank_accounts p ++ [(assigned_id r, owner)])%list /\
    db_transactions p' = db_transactions p /\
    db_user_achievements p' = db_user_achievements p /\
    accounts w' =
      (accounts w ++
       [{| bank_account_id := assigned_id r; owner_id := None;
           balance := balance_draw r; currency := Some cur;
           account_number := number_for payment_system last_number |}])%list /\
    stats w' = bump_accounts (stats w).
Proof.
  intros Hc H. unfold account_block in H.
  apply bind_Ok_inv in H as (w0 & w1 & Hgw & H).
  injection Hgw as <- <-.
  apply bind_Ok_inv in H as (owner & w1 & Ho & H).
  apply expect_Ok_inv in Ho as [Ho ->].
  apply bind_Ok_inv in H as (ps & w1 & Hps & H).
  apply expect_Ok_inv in Hps as [Hps ->].
  apply bind_Ok_inv in H as (row & w1 & Hsel & H).
  apply execute_Ok_inv in Hsel as (p0 & p1 & Hc0 & Hq & ->).
  rewrite Hc in Hc0. injection Hc0 as <-.
  injection Hq as <- <-.
  apply bind_Ok_inv in H as (k & w1 & Hk & H).
  apply expect_Ok_inv in Hk as [Hk ->].
  apply bind_Ok_inv in H as ([] & w1 & Hupd & H).
  apply execute_Ok_inv in Hupd as (p0 & p1 & Hc0 & Hq & ->).
  injection Hc0 as <-. injection Hq as <-.
  apply bind_Ok_inv in H as (cur & w1 & Hcur & H).
  apply expect_Ok_inv in Hcur as [Hcur ->].
  apply bind_Ok_inv in H as (acc & w1 & Hins & H).
  apply execute_Ok_inv in Hins as (p0 & p1 & Hc0 & Hq & ->).
  injection Hc0 as <-. unfold insert_bank_account in Hq. simpl in Hq.
  destruct (db_bank_accounts p !! assigned_id r) eqn:Hfree; [discriminate |].
  injection Hq as <- <-.
  apply bind_Ok_inv in H as ([] & w1 & Hmod & H).
  injection Hmod as <-.
  apply bind_Ok_inv in H as ([] & w1 & Huba & H).
  apply execute_Ok_inv in Huba as (p0 & p1 & Hc0 & Hq & ->).
  injection Hc0 as <-. injection Hq as <-.
  apply bind_Ok_inv in H as ([] & w1 & Hgoal & H).
  apply bind_Ok_inv in H as ([] & w2 & Hst & H).
  injection Hst as <-. injection H as <- <-.
  exists owner, ps, k, cur.
  destruct (with_goal r).
  - apply bind_Ok_inv in Hgoal as (goal_name & w2 & Hg & Hgoal).
    apply expect_Ok_inv in Hg as [Hg ->].
    apply execute_Ok_inv in Hgoal as (p0 & p1 & Hc0 & Hq & ->).
    injection Hc0 as <-. injection Hq as <-.
    eexists. repeat split; try reflexivity; assumption.
  - injection Hgoal as <-.
    eexists. repeat split; try reflexivity; assumption.
Qed.

(** The two ways a call of [create_account] ends: with nothing committed
    and [None], or with an account, its row, the membership row and the
    advanced counter committed together. *)
Lemma create_account_cases r w :
  idle w ->
  idle (create_account r w).2 /\
  payment_systems (create_account r w).2 = payment_systems w /\
  (((create_account r w).1 = Ok None /\
    store (create_account r w).2 = store w) \/
   exists acc,
     (create_account r w).1 = Ok (Some acc) /\
     created r w acc (create_account r w).2).
Proof.
  intros Hi.
  assert (Hclose : forall w', idle (close w') /\ store (close w') = store w' /\
                              payment_systems (close w') = payment_systems w').
  { intros w'. unfold close, idle. destruct (conn w') eqn:Hc; simpl; auto.
    rewrite Hc. auto. }
  unfold create_account, bind, get_world.
  destruct (_ || _); [simpl; auto |].
  unfold try_except, get_cursor, enter.
  assert (Hopen : conn w = NoConn \/ conn w = Closed)
    by (unfold idle in Hi; destruct (conn w); tauto).
  assert (Hrun :
    let res := match leave (account_faulty r)
                       (account_block r (with_conn (Open (store w)) w)) with
               | (Raise, w') => (Ok None, w')
               | x => x
               end in
    idle res.2 /\ payment_systems res.2 = payment_systems w /\
    ((res.1 = Ok None /\ store res.2 = store w) \/
     exists acc, res.1 = Ok (Some acc) /\ created r w acc res.2)).
  { pose proof (account_block_terminates r (with_conn (Open (store w)) w)) as Hterm.
    pose proof (account_block_frame r (store w) (payment_systems w) (users w)
                  (with_conn (Open (store w)) w)
                  (conj eq_refl (conj eq_refl eq_refl))) as (Hst & Hps & _).
    pose proof (account_block_Ok r (with_conn (Open (store w)) w) (store w)) as Hok.
    destruct (account_block r (with_conn (Open (store w)) w)) as [[v| |] w2];
      simpl in Hterm, Hst, Hps; [| | congruence].
    - destruct (Hok v w2 eq_refl eq_refl)
        as (owner & ps & k & cur & p' & Ho & Hp & Hk & Hfree & -> & Hc2
            & Hpay & Hba & Huba & Htx & _ & Hacc & Hstats).
      unfold leave. rewrite Hc2.
      destruct (account_faulty r Commit); simpl.
      + destruct (Hclose w2) as (? & -> & ->). auto.
      + destruct (Hclose (with_store p' w2)) as (Hi' & Hs' & Hp').
        split; [exact Hi' |]. split; [rewrite Hp'; exact Hps |].
        right. eexists. split; [reflexivity |].
        exists owner, ps, k, cur. rewrite Hs'.
        unfold close. simpl. rewrite Hc2. simpl.
        repeat split; auto.
    - simpl. destruct (Hclose w2) as (? & -> & ->). auto. }
  destruct Hopen as [Hc | Hc]; rewrite Hc;
    (destruct (account_faulty r Connect);
     [simpl; destruct (Hclose w) as (? & ? & ?); auto | exact Hrun]).
Qed.

(** X1. At the cap of [max_accounts], or without a cached user,
    [create_account] returns [None] and touches nothing, not even the
    connection. *)
Theorem create_account_capped r w :
  max_accounts w <= Z.of_nat (length (accounts w)) \/ users w = [] ->
  create_account r w = (Ok None, w).
Proof.
  intros H. unfold create_account, bind, get_world.
  destruct H as [H | H].
  - rewrite (bool_decide_eq_true_2 _ H). reflexivity.
  - rewrite (bool_decide_eq_true_2 (users w = []) H), orb_true_r. reflexivity.
Qed.

Lemma create_account_capped_witness :
  create_account (sample_account_draws 3 no_faults)
    (with_accounts [] (World 0 [7] [] [] [(1, "VISA")] (Statistics 0 0 0 0)
                         NoConn (store (sample_world 0 0 "USD" "USD"))))
  = (Ok None,
     with_accounts [] (World 0 [7] [] [] [(1, "VISA")] (Statistics 0 0 0 0)
                         NoConn (store (sample_world 0 0 "USD" "USD")))).
Proof. apply create_account_capped. left. simpl. lia. Defined.

(** X2. Whenever [create_account] returns [None] (cap reached, no user,
    or a store error at any statement or at the commit) nothing has been
    committed: the rail's counter has not advanced and no row has been
    added. *)
Theorem create_account_none_commits_nothing r w :
  idle w ->
  (create_account r w).1 = Ok None ->
  store (create_account r w).2 = store w.
Proof.
  intros Hi Hnone.
  destruct (create_account_cases r w Hi)
    as (_ & _ & [[_ Hst] | (acc & Hsome & _)]); [exact Hst |].
  rewrite Hsome in Hnone. discriminate.
Qed.

Lemma create_account_none_commits_nothing_witness :
  store (create_account (sample_account_draws 3 membership_fails)
           (sample_world 50000 50000 "USD" "USD")).2
  = store (sample_world 50000 50000 "USD" "USD").
Proof.
  apply (create_account_none_commits_nothing
           (sample_account_draws 3 membership_fails)
           (sample_world 50000 50000 "USD" "USD")).
  - exact I.
  - reflexivity.
Defined.

(** X3. When [create_account] returns an account, its number is the
    rail's name followed by the rail's counter as it stood, zero-padded
    to six digits; the counter has advanced by one, the account's row
    and the membership row are committed with it, the cache has the
    account at its end and [accounts_created] has gone up by one. *)
Theorem create_account_some r w acc :
  idle w ->
  (create_account r w).1 = Ok (Some acc) ->
  created r w acc (create_account r w).2.
Proof.
  intros Hi Hsome.
  destruct (create_account_cases r w Hi)
    as (_ & _ & [[Hnone _] | (acc' & Hsome' & Hcreated)]).
  - rewrite Hsome in Hnone. discriminate.
  - rewrite Hsome in Hsome'. injection Hsome' as <-. exact Hcreated.
Qed.

Lemma create_account_some_witness :
  created (sample_account_draws 3 no_faults)
    (sample_world 50000 50000 "USD" "USD")
    (Account 3 None 12345 (Some "EUR") "VISA000003")
    (create_account (sample_account_draws 3 no_faults)
       (sample_world 50000 50000 "USD" "USD")).2.
Proof.
  apply (create_account_some (sample_account_draws 3 no_faults)
           (sample_world 50000 50000 "USD" "USD")).
  - exact I.
  - reflexivity.
Defined.

(** X4. [create_account] always returns: it ends with [None] or with an
    account, never with an exception, and leaves no connection open. *)
Theorem create_account_returns r w :
  idle w ->
  (exists v, (create_account r w).1 = Ok v) /\ idle (create_account r w).2.
Proof.
  intros Hi.
  destruct (create_account_cases r w Hi)
    as (Hi' & _ & [[Hnone _] | (acc & Hsome & _)]); eauto.
Qed.

Lemma create_account_returns_witness :
  (exists v, (create_account (sample_account_draws 1 no_faults)
                (sample_world 50000 50000 "USD" "USD")).1 = Ok v) /\
  idle (create_account (sample_account_draws 1 no_faults)
          (sample_world 50000 50000 "USD" "USD")).2.
Proof.
  apply (create_account_returns (sample_account_draws 1 no_faults)
           (sample_world 50000 50000 "USD" "USD")).
  exact I.
Defined.

(** X5. The cache is appended to before the membership row is inserted
    (line 171 before line 173): when that insertion fails, the rollback
    takes the account's row and the counter's advance back, the call
    returns [None], and yet the cache keeps an account that has no row
    in the store. *)
Theorem create_account_dangling_cache r w owner payment_system last_number cur :
  idle w ->
  Z.of_nat (length (accounts w)) < max_accounts w -> users w <> [] ->
  choice (users w) (owner_pick r) = Some owner ->
  choice (payment_systems w) (payment_system_pick r) = Some payment_system ->
  db_payment_system (store w) !! payment_system.1 = Some last_number ->
  choice ["USD"; "EUR"; "RUB"; "GBP"] (currency_pick r) = Some cur ->
  db_bank_accounts (store w) !! assigned_id r = None ->
  account_faulty r Connect = false ->
  account_faulty r SelectLastNumber = false ->
  account_faulty r UpdateLastNumber = false ->
  account_faulty r InsertBankAccount = false ->
  account_faulty r InsertUserBankAccount = true ->
  let w' := (create_account r w).2 in
  (create_account r w).1 = Ok None /\
  store w' = store w /\
  accounts w' =
    (accounts w ++
     [{| bank_account_id := assigned_id r; owner_id := None;
         balance := balance_draw r; currency := Some cur;
         account_number := number_for payment_system last_number |}])%list /\
  db_bank_accounts (store w') !! assigned_id r = None /\
  stats w' = stats w.
Proof.
  intros Hi Hcap Husers Ho Hp Hk Hcur Hfree Hf0 Hf1 Hf2 Hf3 Hf4 w'.
  assert (Hblock :
    account_block r (with_conn (Open (store w)) w) =
    (Raise,
     with_accounts
       (accounts w ++
        [{| bank_account_id := assigned_id r; owner_id := None;
            balance := balance_draw r; currency := Some cur;
            account_number := number_for payment_system last_number |}])
       (with_conn
          (Open (with_bank_accounts
                   (<[assigned_id r :=
                        new_bank_account r payment_system last_number cur owner]>
                      (db_bank_accounts (store w)))
                   (with_payment_system
                      (alter Z.succ payment_system.1 (db_payment_system (store w)))
                      (store w))))
          w))).
  { unfold account_block.
    unfold bind at 1, get_world at 1.
    unfold bind at 1. simpl users. rewrite Ho. simpl expect. unfold ret at 1.
    unfold bind at 1. simpl payment_systems. rewrite Hp. simpl expect.
    unfold ret at 1.
    erewrite bind_run
      by (eapply execute_run; [reflexivity | exact Hf1 | reflexivity]).
    unfold bind at 1. rewrite Hk. simpl expect. unfold ret at 1.
    erewrite bind_run
      by (eapply execute_run; [reflexivity | exact Hf2 | reflexivity]).
    unfold bind at 1. rewrite Hcur. simpl expect. unfold ret at 1.
    erewrite bind_run
      by (eapply execute_run;
          [reflexivity | exact Hf3
          | unfold insert_bank_account; simpl; rewrite Hfree; reflexivity]).
    unfold bind at 1, modify at 1.
    erewrite bind_raise
      by (eapply execute_faulty; [reflexivity | exact Hf4]).
    reflexivity. }
  subst w'. unfold create_account, bind, get_world.
  rewrite bool_decide_eq_false_2 by lia.
  rewrite (bool_decide_eq_false_2 (users w = []) Husers).
  change (false || false) with false. cbv iota.
  unfold try_except. rewrite get_cursor_idle by assumption.
  rewrite Hblock. unfold leave, close. simpl.
  repeat split; auto.
Qed.

Lemma create_account_dangling_cache_witness :
  let w := sample_world 50000 50000 "USD" "USD" in
  let w' := (create_account (sample_account_draws 3 membership_fails) w).2 in
  (create_account (sample_account_draws 3 membership_fails) w).1 = Ok None /\
  store w' = store w /\
  accounts w' =
    (accounts w ++ [Account 3 None 12345 (Some "EUR") "VISA000003"])%list /\
  db_bank_accounts (store w') !! 3 = None /\
  stats w' = stats w.
Proof.
  apply (create_account_dangling_cache
           (sample_account_draws 3 membership_fails)
           (sample_world 50000 50000 "USD" "USD") 7 (1, "VISA") 3 "EUR");
    first [ exact I | reflexivity | simpl; lia | discriminate ].
Defined.

Lemma StronglySorted_lt_NoDup (ks : list Z) :
  StronglySorted Z.lt ks -> NoDup ks.
Proof.
  induction 1 as [|k ks Hs IH Hall]; constructor; [| exact IH].
  intros Hin. rewrite Forall_forall in Hall.
  specialize (Hall k Hin). lia.
Qed.

(** The numbers issued for a rail are its name followed by counters
    that grow, none below the counter the store shows. *)
Lemma issued_counters payment_system rs w :
  idle w ->
  exists ks,
    issued payment_system rs w = number_for payment_system <$> ks /\
    StronglySorted Z.lt ks /\
    Forall (fun k => exists k0,
              db_payment_system (store w) !! payment_system.1 = Some k0 /\
              k0 <= k) ks.
Proof.
  revert w. induction rs as [|r rs IH]; intros w Hi.
  - exists []. repeat split; constructor.
  - simpl.
    destruct (create_account_cases r w Hi)
      as (Hi' & Hps & [[Hnone Hst] | (acc & Hsome & Hcr)]).
    + rewrite Hnone. destruct (IH _ Hi') as (ks & Heq & Hsorted & Hlow).
      exists ks. rewrite Hst in Hlow. auto.
    + rewrite Hsome.
      destruct Hcr as (owner & ps & k & cur & _ & Hpick & Hk & _ & -> & Hpay & _).
      destruct (IH _ Hi') as (ks & Heq & Hsorted & Hlow).
      rewrite Hpay in Hlow.
      case_bool_decide as Hsame.
      * rewrite Hpick in Hsame. injection Hsame as ->.
        rewrite lookup_alter_eq, Hk in Hlow. simpl in Hlow.
        exists (k :: ks). simpl. rewrite Heq. split; [reflexivity |].
        split.
        -- constructor; [exact Hsorted |].
           eapply Forall_impl; [exact Hlow |].
           intros k' (k0 & [= <-] & Hle). lia.
        -- constructor; [eauto with lia |].
           eapply Forall_impl; [exact Hlow |].
           intros k' (k0 & [= <-] & Hle). exists k. split; [exact Hk | lia].
      * exists ks. split; [exact Heq |]. split; [exact Hsorted |].
        eapply Forall_impl; [exact Hlow |].
        intros k' (k0 & Hk0 & Hle). rewrite lookup_alter in Hk0.
        case_decide as Hid.
        -- rewrite Hk in Hk0. injection Hk0 as <-. exists k.
           split; [rewrite <- Hid; exact Hk | lia].
        -- eauto.
Qed.

(** X6. Over any sequence of [create_account] calls, with any draws and
    any store errors, the numbers returned for a rail are the rail's
    name followed by strictly increasing counter values, and they are
    pairwise distinct as strings (also past 999999, where the number
    outgrows its six digits). *)
Theorem account_numbers_increasing payment_system rs w :
  idle w ->
  exists ks,
    issued payment_system rs w = number_for payment_system <$> ks /\
    StronglySorted Z.lt ks /\
    NoDup (issued payment_system rs w).
Proof.
  intros Hi.
  destruct (issued_counters payment_system rs w Hi) as (ks & Heq & Hsorted & _).
  exists ks. split; [exact Heq |]. split; [exact Hsorted |].
  rewrite Heq. apply NoDup_fmap_2.
  - intros k1 k2. apply number_for_inj.
  - apply StronglySorted_lt_NoDup, Hsorted.
Qed.

Lemma account_numbers_increasing_witness :
  exists ks,
    issued (1, "VISA")
      [sample_account_draws 3 no_faults;
       sample_account_draws 4 membership_fails;
       sample_account_draws 5 no_faults]
      (sample_world 50000 50000 "USD" "USD")
    = number_for (1, "VISA") <$> ks /\
    StronglySorted Z.lt ks /\
    NoDup (issued (1, "VISA")
             [sample_account_draws 3 no_faults;
              sample_account_draws 4 membership_fails;
              sample_account_draws 5 no_faults]
             (sample_world 50000 50000 "USD" "USD")).
Proof.
  apply (account_numbers_increasing (1, "VISA")
           [sample_account_draws 3 no_faults;
            sample_account_draws 4 membership_fails;
            sample_account_draws 5 no_faults]
           (sample_world 50000 50000 "USD" "USD")).
  exact I.
Defined.

(** C9. The account numbers that successive [create_account] calls
    return for a rail are the rail's name followed by strictly
    increasing counter values, and are pairwise distinct.  Reading the
    counter, forming the number, advancing the counter and inserting the
    account row are one atomic unit: a call either returns [None] with
    the store, the counter included, as it was, or returns the account
    with the advanced counter, the row and the membership row committed
    together. *)
Theorem create_account_numbers payment_system rs r w :
  idle w ->
  (exists ks,
     issued payment_system rs w = number_for payment_system <$> ks /\
     StronglySorted Z.lt ks /\
     NoDup (issued payment_system rs w)) /\
  (((create_account r w).1 = Ok None /\
    store (create_account r w).2 = store w) \/
   exists acc,
     (create_account r w).1 = Ok (Some acc) /\
     created r w acc (create_account r w).2).
Proof.
  intros Hi. split.
  - destruct (issued_counters payment_system rs w Hi)
      as (ks & Heq & Hsorted & _).
    exists ks. split; [exact Heq |]. split; [exact Hsorted |].
    rewrite Heq. apply NoDup_fmap_2.
    + intros k1 k2. apply number_for_inj.
    + apply StronglySorted_lt_NoDup, Hsorted.
  - destruct (create_account_cases r w Hi) as (_ & _ & Hcases).
    exact Hcases.
Qed.

Lemma create_account_numbers_witness :
  let w := sample_world 50000 50000 "USD" "USD" in
  let rs := [sample_account_draws 3 no_faults;
             sample_account_draws 4 membership_fails;
             sample_account_draws 5 no_faults] in
  let r := sample_account_draws 4 membership_fails in
  (exists ks,
     issued (1, "VISA") rs w = number_for (1, "VISA") <$> ks /\
     StronglySorted Z.lt ks /\
     NoDup (issued (1, "VISA") rs w)) /\
  (((create_account r w).1 = Ok None /\
    store (create_account r w).2 = store w) \/
   exists acc,
     (create_account r w).1 = Ok (Some acc) /\
     created r w acc (create_account r w).2).
Proof.
  apply (create_account_numbers (1, "VISA")
           [sample_account_draws 3 no_faults;
            sample_account_draws 4 membership_fails;
            sample_account_draws 5 no_faults]
           (sample_account_draws 4 membership_fails)
           (sample_world 50000 50000 "USD" "USD")).
  exact I.
Defined.

Example issued_sample :
  issued (1, "VISA")
    [sample_account_draws 3 no_faults;
     sample_account_draws 4 membership_fails;
     sample_account_draws 5 no_faults]
    (sample_world 50000 50000 "USD" "USD")
  = ["VISA000003"; "VISA000004"].
Proof. vm_compute. reflexivity. Qed.

(** X7. [f"{n:06d}"] is faithful: two different counters never print
    alike, whatever their sign and size, and a non-negative counter is
    read back from its digits. *)
Theorem format_06d_faithful n m :
  (format_06d n = format_06d m -> n = m) /\
  (0 <= n -> digits_value (format_06d n) = Some (Z.to_N n)).
Proof.
  split; [apply format_06d_inj |].
  intros Hn. unfold format_06d. rewrite bool_decide_eq_false_2 by lia.
  apply digits_value_zfill.
Qed.

Lemma format_06d_faithful_witness :
  (format_06d 999999 = format_06d 1000000 -> 999999 = 1000000) /\
  (0 <= 999999 -> digits_value (format_06d 999999) = Some (Z.to_N 999999)).
Proof. apply (format_06d_faithful 999999 1000000). Defined.

(** ** [get_cursor] *)

(** X8. Whenever the block of a [with self.get_cursor()] comes to an
    end, by returning or by raising, and also when the connection cannot
    be made or the commit fails, the connection is closed afterwards: no
    transaction stays open. *)
Theorem get_cursor_always_closes {A} faulty (body : M A) w :
  terminates body -> idle (get_cursor faulty body w).2.
Proof.
  intros Hb. apply get_cursor_closes. apply terminates_get_cursor, Hb.
Qed.

Lemma get_cursor_always_closes_witness :
  idle (get_cursor insert_fails
          (execute insert_fails InsertCompleted
             (insert_transaction
                (TransactionRow None 2 100 100 "x" 1 completed)))
          (sample_world 0 0 "USD" "USD")).2.
Proof.
  apply (get_cursor_always_closes insert_fails
           (execute insert_fails InsertCompleted
              (insert_transaction
                 (TransactionRow None 2 100 100 "x" 1 completed)))
           (sample_world 0 0 "USD" "USD")).
  apply terminates_execute.
Defined.

(** X9. A block is all or nothing: started with no transaction open, and
    as long as the block does not commit by itself, an exception (or a
    failed commit) leaves the store as it was, and a normal end makes
    the store what the block's transaction had reached. *)
Theorem get_cursor_all_or_nothing {A} faulty (body : M A) w :
  idle w ->
  (forall w1, store (body w1).2 = store w1) ->
  ((get_cursor faulty body w).1 = Raise ->
   store (get_cursor faulty body w).2 = store w) /\
  (forall v, (get_cursor faulty body w).1 = Ok v ->
     exists w2,
       body (with_conn (Open (store w)) w) = (Ok v, w2) /\
       conn w2 = Open (store (get_cursor faulty body w).2)).
Proof.
  intros Hi Hframe.
  assert (Hclose : forall w', store (close w') = store w').
  { intros w'. unfold close. destruct (conn w'); reflexivity. }
  unfold get_cursor, enter.
  assert (Hrun :
    ((leave faulty (body (with_conn (Open (store w)) w))).1 = Raise ->
     store (leave faulty (body (with_conn (Open (store w)) w))).2 = store w) /\
    (forall v, (leave faulty (body (with_conn (Open (store w)) w))).1 = Ok v ->
       exists w2,
         body (with_conn (Open (store w)) w) = (Ok v, w2) /\
         conn w2 = Open (store (leave faulty
                                  (body (with_conn (Open (store w)) w))).2))).
  { specialize (Hframe (with_conn (Open (store w)) w)).
    destruct (body (with_conn (Open (store w)) w)) as [[v| |] w2];
      simpl in Hframe; unfold leave.
    - destruct (conn w2) as [|p|] eqn:Hc; simpl.
      + split; [intros _; rewrite Hclose; exact Hframe | discriminate].
      + destruct (faulty Commit); simpl.
        * split; [intros _; rewrite Hclose; exact Hframe | discriminate].
        * split; [discriminate |]. intros v' [= <-].
          exists w2. rewrite Hclose. simpl. auto.
      + split; [intros _; rewrite Hclose; exact Hframe | discriminate].
    - simpl. split; [intros _; rewrite Hclose; exact Hframe | discriminate].
    - simpl. split; discriminate. }
  unfold idle in Hi.
  destruct (conn w); [| contradiction |];
    (destruct (faulty Connect);
     [simpl; split; [intros _; apply Hclose | discriminate] | exact Hrun]).
Qed.

Lemma get_cursor_all_or_nothing_witness :
  let body :=
    execute insert_fails InsertFailed
      (insert_transaction (TransactionRow None 2 100 100 "x" 1 failed)) in
  let w := sample_world 0 0 "USD" "USD" in
  ((get_cursor insert_fails body w).1 = Raise ->
   store (get_cursor insert_fails body w).2 = store w) /\
  (forall v, (get_cursor insert_fails body w).1 = Ok v ->
     exists w2,
       body (with_conn (Open (store w)) w) = (Ok v, w2) /\
       conn w2 = Open (store (get_cursor insert_fails body w).2)).
Proof.
  apply (get_cursor_all_or_nothing insert_fails
           (execute insert_fails InsertFailed
              (insert_transaction (TransactionRow None 2 100 100 "x" 1 failed)))
           (sample_world 0 0 "USD" "USD")).
  - exact I.
  - intros w1. unfold execute. destruct (conn w1); reflexivity.
Defined.

(** ** [create_scheduled_transfer] *)



(** X10. Called with no transaction open and no store error,
    [create_scheduled_transfer] commits exactly one row: weekly with the
    next occurrence 7 days after the start, or monthly with it 30 days
    after, and in both cases, for the day counts [randint] can return,
    not after the end date.  No balance changes and
    [scheduled_transfers_created] goes up by one. *)
Theorem create_scheduled_transfer_effect r sender_account receiver_account
    amount w frequency :
  idle w ->
  choice ["weekly"; "monthly"] (frequency_pick r) = Some frequency ->
  valid_end_days r frequency ->
  transfer_faulty r Connect = false ->
  transfer_faulty r InsertScheduledTransfer = false ->
  transfer_faulty r Commit = false ->
  let w' := (create_scheduled_transfer r sender_account receiver_account
               amount w).2 in
  let row := scheduled_transfer_for r sender_account receiver_account amount
               frequency in
  db_scheduled_transfers (store w')
    = (db_scheduled_transfers (store w) ++ [row])%list /\
  (st_next_occurrence_date row = st_start_date row + 7 /\ frequency = "weekly" \/
   st_next_occurrence_date row = st_start_date row + 30 /\ frequency = "monthly") /\
  st_start_date row < st_next_occurrence_date row <= st_end_date row /\
  db_bank_accounts (store w') = db_bank_accounts (store w) /\
  db_transactions (store w') = db_transactions (store w) /\
  scheduled_transfers_created (stats w')
    = scheduled_transfers_created (stats w) + 1 /\
  idle w'.
Proof.
  intros Hi Hfreq Hvalid Hconnect Hins Hcommit w' row.
  assert (Hrun :
    create_scheduled_transfer r sender_account receiver_account amount w =
    (Ok tt,
     with_conn Closed
       (with_store
          (with_scheduled_transfers
             (db_scheduled_transfers (store w) ++ [row]) (store w))
          (with_stats (bump_scheduled_transfers (stats w)) w)))).
  { unfold create_scheduled_transfer, try_except.
    rewrite get_cursor_idle by assumption.
    unfold bind at 1. rewrite Hfreq. simpl expect. unfold ret at 1.
    erewrite bind_run
      by (eapply execute_run; [reflexivity | exact Hins | reflexivity]).
    unfold modify, leave. simpl conn. rewrite Hcommit. reflexivity. }
  subst w'. rewrite Hrun. simpl.
  split; [reflexivity |].
  assert (Hw : frequency = "weekly" \/ frequency = "monthly").
  { destruct (choice_frequency (frequency_pick r)) as (f & Hf & Hor).
    congruence. }
  unfold valid_end_days in Hvalid.
  destruct Hw as [-> | ->]; simpl in *; repeat split; auto; lia.
Qed.

Lemma create_scheduled_transfer_effect_witness :
  let r := TransferDraws 0 40 1234 100 no_faults in
  let s := Account 1 (Some 7) 50000 (Some "USD") "VISA000001" in
  let rcv := Account 2 (Some 8) 1000 (Some "USD") "VISA000002" in
  let w := sample_world 50000 50000 "USD" "USD" in
  let w' := (create_scheduled_transfer r s rcv 12000 w).2 in
  let row := scheduled_transfer_for r s rcv 12000 "weekly" in
  db_scheduled_transfers (store w')
    = (db_scheduled_transfers (store w) ++ [row])%list /\
  (st_next_occurrence_date row = st_start_date row + 7 /\ "weekly" = "weekly" \/
   st_next_occurrence_date row = st_start_date row + 30 /\ "weekly" = "monthly") /\
  st_start_date row < st_next_occurrence_date row <= st_end_date row /\
  db_bank_accounts (store w') = db_bank_accounts (store w) /\
  db_transactions (store w') = db_transactions (store w) /\
  scheduled_transfers_created (stats w')
    = scheduled_transfers_created (stats w) + 1 /\
  idle w'.
Proof.
  apply (create_scheduled_transfer_effect
           (TransferDraws 0 40 1234 100 no_faults)
           (Account 1 (Some 7) 50000 (Some "USD") "VISA000001")
           (Account 2 (Some 8) 1000 (Some "USD") "VISA000002")
           12000 (sample_world 50000 50000 "USD" "USD") "weekly");
    first [ exact I | reflexivity | unfold valid_end_days; simpl; lia ].
Defined.

(** X11. A store error in [create_scheduled_transfer] goes no further
    than its own handler: the call returns normally with nothing
    committed.  [scheduled_transfers_created] is left alone when the
    connection or the insertion fails, but it has already been
    incremented when it is the commit that fails. *)
Theorem create_scheduled_transfer_error r sender_account receiver_account
    amount w :
  idle w ->
  transfer_faulty r Connect = true \/
  transfer_faulty r InsertScheduledTransfer = true \/
  transfer_faulty r Commit = true ->
  let res := create_scheduled_transfer r sender_account receiver_account
               amount w in
  res.1 = Ok tt /\ store res.2 = store w /\
  accounts res.2 = accounts w /\ idle res.2 /\
  stats res.2 =
    (if transfer_faulty r Connect || transfer_faulty r InsertScheduledTransfer
     then stats w else bump_scheduled_transfers (stats w)).
Proof.
  intros Hi Hfail res. subst res.
  assert (Hopen : conn w = NoConn \/ conn w = Closed)
    by (unfold idle in Hi; destruct (conn w); tauto).
  destruct (choice_frequency (frequency_pick r)) as (frequency & Hfreq & _).
  assert (Hres : exists w',
    create_scheduled_transfer r sender_account receiver_account amount w
      = (Ok tt, w') /\
    store w' = store w /\ accounts w' = accounts w /\ idle w' /\
    stats w' =
      (if transfer_faulty r Connect || transfer_faulty r InsertScheduledTransfer
       then stats w else bump_scheduled_transfers (stats w))).
  { destruct (transfer_faulty r Connect) eqn:Hconnect.
    { unfold create_scheduled_transfer, try_except, get_cursor, enter.
      destruct Hopen as [Hc | Hc]; rewrite Hc, Hconnect; simpl;
        (eexists; split; [reflexivity |]);
        unfold close, idle; rewrite Hc; simpl; auto. }
    unfold create_scheduled_transfer, try_except.
    rewrite get_cursor_idle by assumption.
    unfold bind at 1. rewrite Hfreq. simpl expect. unfold ret at 1.
    destruct (transfer_faulty r InsertScheduledTransfer) eqn:Hins.
    - erewrite bind_raise by (eapply execute_faulty; [reflexivity | exact Hins]).
      simpl. eexists. split; [reflexivity |]. simpl. repeat split; exact I.
    - erewrite bind_run
        by (eapply execute_run; [reflexivity | exact Hins | reflexivity]).
      destruct Hfail as [? | [? | Hcommit]]; try discriminate.
      unfold modify, leave. simpl conn. rewrite Hcommit.
      simpl. eexists. split; [reflexivity |]. simpl. repeat split; exact I. }
  destruct Hres as (w' & -> & Hres). split; [reflexivity | exact Hres].
Qed.

Lemma create_scheduled_transfer_error_witness :
  let w := sample_world 50000 50000 "USD" "USD" in
  let res :=
    create_scheduled_transfer (TransferDraws 0 40 1234 100 schedule_fails)
      (Account 1 (Some 7) 50000 (Some "USD") "VISA000001")
      (Account 2 (Some 8) 1000 (Some "USD") "VISA000002")
      12000 w in
  res.1 = Ok tt /\ store res.2 = store w /\
  accounts res.2 = accounts w /\ idle res.2 /\
  stats res.2 = stats w.
Proof.
  apply (create_scheduled_transfer_error
           (TransferDraws 0 40 1234 100 schedule_fails)
           (Account 1 (Some 7) 50000 (Some "USD") "VISA000001")
           (Account 2 (Some 8) 1000 (Some "USD") "VISA000002")
           12000 (sample_world 50000 50000 "USD" "USD")).
  - exact I.
  - right. left. reflexivity.
Defined.

(** ** The scheduled transfer inside [generate_transaction] *)





(** ** What [update_achievements] grants *)

Lemma elem_of_selected u' a u n d :
  (u', a) ∈ selected u n d <-> u' = u /\ (a, n) ∈ db_achievements d.
Proof.
  unfold selected. rewrite elem_of_list_to_set, list_elem_of_fmap. split.
  - intros ([a' n'] & [= -> ->] & Hin).
    apply list_elem_of_filter in Hin as [Hn Hin]. simpl in Hn. subst n'. auto.
  - intros [-> Hin]. exists (a, n). split; [reflexivity |].
    apply list_elem_of_filter. auto.
Qed.

Lemma elem_of_rule_grants u a d user :
  (u, a) ∈ rule_grants d user <->
  u = us_user_id user /\
  exists n, (a, n) ∈ db_achievements d /\
            qualifies (tx_count user) (total_received user) n.
Proof.
  unfold rule_grants, qualifies. rewrite !elem_of_union. split.
  - intros [[H | H] | H]; case_bool_decide; try (apply elem_of_empty in H as []);
      apply elem_of_selected in H as [-> Hin]; split; eauto 10.
  - intros [-> (n & Hin & [[-> Hc] | [[-> Hc] | [-> Hc]]])].
    + left. left. rewrite bool_decide_eq_true_2 by exact Hc.
      apply elem_of_selected. auto.
    + left. right. rewrite bool_decide_eq_true_2 by exact Hc.
      apply elem_of_selected. auto.
    + right. rewrite bool_decide_eq_true_2 by exact Hc.
      apply elem_of_selected. auto.
Qed.

Lemma elem_of_user_stats_rows user d :
  user ∈ user_stats_rows d <->
  us_user_id user ∈ db_users d /\
  received d (us_user_id user) <> [] /\
  tx_count user = Z.of_nat (length (received d (us_user_id user))) /\
  total_received user
    = foldr Z.add 0 (tx_amount <$> received d (us_user_id user)).
Proof.
  unfold user_stats_rows. rewrite list_elem_of_bind. split.
  - intros (u & Hin & Hu). apply elem_of_elements in Hu.
    case_bool_decide as Hlen; [| inversion Hin].
    apply list_elem_of_singleton in Hin. subst user. simpl.
    repeat split; auto. intros E. rewrite E in Hlen. simpl in Hlen. lia.
  - intros (Hu & Hne & Hc & Ht). exists (us_user_id user).
    split; [| apply elem_of_elements; exact Hu].
    rewrite bool_decide_eq_true_2
      by (destruct (received d (us_user_id user)); [congruence | simpl; lia]).
    apply list_elem_of_singleton. destruct user; simpl in *. congruence.
Qed.

(** X14. After a pass of [update_achievements] that met no store error,
    a user holds an achievement exactly when the user held it before, or
    is a user with at least one received transaction whose count of
    received transactions, or whose total of received amounts, reaches
    the threshold of an achievement of that name: 1 for "First
    Transaction", 50 for "Active User", 10000.00 for "Savings Master".
    The other tables are as they were. *)
Theorem update_achievements_grants faulty w u a :
  idle w -> (forall s, faulty s = false) ->
  let d := store w in
  let d' := store (update_achievements faulty w).2 in
  ((u, a) ∈ db_user_achievements d' <->
   (u, a) ∈ db_user_achievements d \/
   u ∈ db_users d /\ received d u <> [] /\
   exists n, (a, n) ∈ db_achievements d /\
     qualifies (Z.of_nat (length (received d u)))
       (foldr Z.add 0 (tx_amount <$> received d u)) n) /\
  db_transactions d' = db_transactions d /\
  db_bank_accounts d' = db_bank_accounts d /\
  db_achievements d' = db_achievements d.
Proof.
  intros Hi Hf d d'.
  destruct (update_achievements_run faulty w Hi Hf) as [Hst _].
  subst d'. rewrite Hst. fold d.
  split; [| repeat split].
  unfold add_grants, due. simpl. rewrite elem_of_union, elem_of_union_list.
  split.
  - intros [H | (X & HX & Hin)]; [auto |]. right.
    apply list_elem_of_fmap in HX as (user & -> & Huser).
    apply elem_of_rule_grants in Hin as (-> & n & Ha & Hq).
    apply elem_of_user_stats_rows in Huser as (Hu & Hne & Hc & Ht).
    rewrite Hc, Ht in Hq. eauto 10.
  - intros [H | (Hu & Hne & n & Ha & Hq)]; [auto |]. right.
    set (user := {| us_user_id := u;
                    tx_count := Z.of_nat (length (received d u));
                    total_received :=
                      foldr Z.add 0 (tx_amount <$> received d u) |}).
    exists (rule_grants d user). split.
    + apply list_elem_of_fmap. exists user. split; [reflexivity |].
      apply elem_of_user_stats_rows. simpl. auto.
    + apply elem_of_rule_grants. simpl. eauto.
Qed.

Lemma update_achievements_grants_witness :
  let w := (generate_transaction (sample_draws true 15000 false no_faults)
              (sample_world 50000 50000 "USD" "USD")).2 in
  let d := store w in
  let d' := store (update_achievements no_faults w).2 in
  ((8, 1) ∈ db_user_achievements d' <->
   (8, 1) ∈ db_user_achievements d \/
   8 ∈ db_users d /\ received d 8 <> [] /\
   exists n, (1, n) ∈ db_achievements d /\
     qualifies (Z.of_nat (length (received d 8)))
       (foldr Z.add 0 (tx_amount <$> received d 8)) n) /\
  db_transactions d' = db_transactions d /\
  db_bank_accounts d' = db_bank_accounts d /\
  db_achievements d' = db_achievements d.
Proof.
  apply (update_achievements_grants no_faults
           (generate_transaction (sample_draws true 15000 false no_faults)
              (sample_world 50000 50000 "USD" "USD")).2 8 1).
  - exact I.
  - intros s. reflexivity.
Defined.

Lemma when_grant_Ok faulty b u n w p w' :
  conn w = Open p ->
  when b (grant faulty u n) w = (Ok tt, w') ->
  w' = with_conn (Open (add_grants (if b then selected u n p else ∅) p)) w.
Proof.
  intros Hc H. destruct b; simpl in H.
  - unfold grant in H.
    apply execute_Ok_inv in H as (p0 & p1 & Hc0 & Hq & ->).
    rewrite Hc in Hc0. injection Hc0 as <-. injection Hq as <-. reflexivity.
  - injection H as <-. rewrite add_grants_held by set_solver.
    rewrite with_conn_same by exact Hc. reflexivity.
Qed.

Lemma for_each_rules_Ok faulty l w p w' :
  conn w = Open p ->
  for_each l (fun user =>
    when (bool_decide (1 <= tx_count user))
      (grant faulty (us_user_id user) "First Transaction") ;;;
    when (bool_decide (50 <= tx_count user))
      (grant faulty (us_user_id user) "Active User") ;;;
    when (bool_decide (1000000 <= total_received user))
      (grant faulty (us_user_id user) "Savings Master"))%py w = (Ok tt, w') ->
  conn w' = Open (add_grants (⋃ (rule_grants p <$> l)) p).
Proof.
  revert w p. induction l as [|user l IH]; intros w p Hc H; simpl in H.
  - injection H as <-. rewrite add_grants_held by set_solver. exact Hc.
  - apply bind_Ok_inv in H as ([] & w1 & Hstep & H).
    apply bind_Ok_inv in Hstep as ([] & w2 & H1 & Hstep).
    apply bind_Ok_inv in Hstep as ([] & w3 & H2 & H3).
    apply (when_grant_Ok _ _ _ _ _ p) in H1; [| exact Hc]. subst w2.
    eapply when_grant_Ok in H2; [| reflexivity]. subst w3.
    eapply when_grant_Ok in H3; [| reflexivity]. subst w1.
    eapply IH in H; [| reflexivity]. rewrite H.
    rewrite !add_grants_add_grants. f_equal. f_equal.
    unfold rule_grants. simpl. rewrite !(assoc_L (∪)). reflexivity.
Qed.

Lemma achievements_block_frame faulty d :
  preserves (fun w => store w = d) (achievements_block faulty).
Proof.
  unfold achievements_block.
  apply preserves_bind;
    [apply preserves_execute_conn; intros ? ? ?; assumption | intros rows].
  apply preserves_for_each. intros user _.
  repeat first
    [ apply preserves_when; intros _
    | apply preserves_execute_conn; intros ? ? ?; assumption
    | apply preserves_bind; [| intros ?] ].
Qed.

(** X15. A pass of [update_achievements] is all or nothing: with store
    errors at any of its statements, or at the commit, it commits either
    every pair that is due or none at all; it never commits a part of
    them. *)
Theorem update_achievements_all_or_nothing faulty w :
  idle w ->
  store (update_achievements faulty w).2 = store w \/
  store (update_achievements faulty w).2
    = add_grants (due (store w)) (store w).
Proof.
  intros Hi.
  assert (Hclose : forall w', store (close w') = store w').
  { intros w'. unfold close. destruct (conn w'); reflexivity. }
  unfold update_achievements. rewrite try_except_world.
  unfold get_cursor, enter.
  assert (Hrun :
    store (leave faulty
             (achievements_block faulty (with_conn (Open (store w)) w))).2
      = store w \/
    store (leave faulty
             (achievements_block faulty (with_conn (Open (store w)) w))).2
      = add_grants (due (store w)) (store w)).
  { pose proof (achievements_block_frame faulty (store w)
                  (with_conn (Open (store w)) w) eq_refl) as Hframe.
    destruct (achievements_block faulty (with_conn (Open (store w)) w))
      as [[[]| |] w2] eqn:Hblock; simpl in Hframe; unfold leave.
    - unfold achievements_block in Hblock.
      apply bind_Ok_inv in Hblock as (rows & w1 & Hsel & Hblock).
      apply execute_Ok_inv in Hsel as (p0 & p1 & Hc0 & Hq & ->).
      injection Hc0 as <-. injection Hq as <- <-.
      eapply for_each_rules_Ok in Hblock; [| reflexivity].
      rewrite Hblock. destruct (faulty Commit); simpl.
      + left. rewrite Hclose. exact Hframe.
      + right. rewrite Hclose. reflexivity.
    - simpl. left. rewrite Hclose. exact Hframe.
    - simpl. left. exact Hframe. }
  unfold idle in Hi.
  destruct (conn w); [| contradiction |];
    (destruct (faulty Connect); [left; apply Hclose | exact Hrun]).
Qed.

Lemma update_achievements_all_or_nothing_witness :
  let w := (generate_transaction (sample_draws true 15000 false no_faults)
              (sample_world 50000 50000 "USD" "USD")).2 in
  store (update_achievements insert_fails w).2 = store w \/
  store (update_achievements insert_fails w).2
    = add_grants (due (store w)) (store w).
Proof.
  apply (update_achievements_all_or_nothing insert_fails
           (generate_transaction (sample_draws true 15000 false no_faults)
              (sample_world 50000 50000 "USD" "USD")).2).
  exact I.
Defined.

Lemma filter_receiver_fmap (f : transaction_row -> transaction_row) id
    (txs : list transaction_row) :
  (forall t, tx_receiver_account_id (f t) = tx_receiver_account_id t) ->
  filter (fun t => tx_receiver_account_id t = id) (f <$> txs)
  = f <$> filter (fun t => tx_receiver_account_id t = id) txs.
Proof.
  intros Hf. induction txs as [|t txs IH]; [reflexivity |].
  rewrite fmap_cons, !filter_cons, Hf, IH.
  case_decide; reflexivity.
Qed.

Lemma received_fmap (f : transaction_row -> transaction_row) d u :
  (forall t, tx_receiver_account_id (f t) = tx_receiver_account_id t) ->
  received (with_transactions (f <$> db_transactions d) d) u
  = f <$> received d u.
Proof.
  intros Hf. unfold received. simpl.
  generalize (map_to_list (db_bank_accounts d)).
  intros l. induction l as [|[id ba] l IH]; [reflexivity |].
  rewrite !bind_cons, fmap_app, IH. f_equal.
  case_bool_decide; [apply filter_receiver_fmap, Hf | reflexivity].
Qed.

(** X16. The statistics behind the achievements read nothing of a
    transaction but its receiver and its amount: rewriting the other
    columns of the recorded transactions (status, sender, converted
    amount, description, type) changes neither the rows of statistics
    nor the grants that are due.  A [failed] transaction, which moved no
    money, counts like a [completed] one. *)
Theorem user_stats_ignore_status (f : transaction_row -> transaction_row) d :
  (forall t, tx_receiver_account_id (f t) = tx_receiver_account_id t /\
             tx_amount (f t) = tx_amount t) ->
  user_stats_rows (with_transactions (f <$> db_transactions d) d)
    = user_stats_rows d /\
  due (with_transactions (f <$> db_transactions d) d) = due d.
Proof.
  intros Hf.
  assert (Hrows :
    user_stats_rows (with_transactions (f <$> db_transactions d) d)
      = user_stats_rows d).
  { unfold user_stats_rows. simpl db_users.
    apply list_bind_ext; [| reflexivity]. intros u.
    rewrite received_fmap by (intros t; apply Hf).
    rewrite length_fmap, <- list_fmap_compose.
    replace (tx_amount ∘ f <$> received d u)
      with (tx_amount <$> received d u); [reflexivity |].
    apply list_fmap_ext. intros i t _. simpl. symmetry. apply Hf. }
  split; [exact Hrows |].
  unfold due. rewrite Hrows. reflexivity.
Qed.

Lemma user_stats_ignore_status_witness :
  let fail t :=
    {| tx_sender_account_id := tx_sender_account_id t;
       tx_receiver_account_id := tx_receiver_account_id t;
       tx_amount := tx_amount t;
       tx_converted_amount := tx_converted_amount t;
       tx_description := tx_description t; tx_type_id := tx_type_id t;
       tx_status := failed |} in
  let d := store (generate_transaction
                    (sample_draws true 15000 false no_faults)
                    (sample_world 50000 50000 "USD" "USD")).2 in
  user_stats_rows (with_transactions (fail <$> db_transactions d) d)
    = user_stats_rows d /\
  due (with_transactions (fail <$> db_transactions d) d) = due d.
Proof.
  apply (user_stats_ignore_status
           (fun t =>
              {| tx_sender_account_id := tx_sender_account_id t;
                 tx_receiver_account_id := tx_receiver_account_id t;
                 tx_amount := tx_amount t;
                 tx_converted_amount := tx_converted_amount t;
                 tx_description := tx_description t;
                 tx_type_id := tx_type_id t;
                 tx_status := failed |})
           (store (generate_transaction
                     (sample_draws true 15000 false no_faults)
                     (sample_world 50000 50000 "USD" "USD")).2)).
  intros t. split; reflexivity.
Defined.

(** ** What [generate_transaction] leaves alone *)

Lemma update_cached_balance_shape id b l :
  shape <$> update_cached_balance id b l = shape <$> l.
Proof.
  induction l as [|acc l IH]; [reflexivity |].
  cbn [update_cached_balance]. case_bool_decide.
  - reflexivity.
  - rewrite !fmap_cons, IH. reflexivity.
Qed.

(** [get_cursor] keeps what neither the connection nor the store is
    part of, when its block does. *)
Lemma preserves_get_cursor_frame (I : world -> Prop) {A} faulty (body : M A) :
  (forall c w, I w -> I (with_conn c w)) ->
  (forall d w, I w -> I (with_store d w)) ->
  preserves I body -> preserves I (get_cursor faulty body).
Proof.
  intros Hconn Hstore Hbody w Hw.
  assert (Hclose : forall w', I w' -> I (close w')).
  { intros w' Hw'. unfold close. destruct (conn w'); auto. }
  unfold get_cursor, enter.
  assert (Hl : forall w1, I w1 -> I (leave faulty (body w1)).2).
  { intros w1 H1. specialize (Hbody w1 H1). unfold leave.
    destruct (body w1) as [[v| |] w2]; simpl in *; auto.
    destruct (conn w2); simpl; auto.
    destruct (faulty Commit); simpl; auto. }
  destruct (conn w); [| apply Hl; exact Hw |];
    (destruct (faulty Connect); [apply Hclose, Hw | apply Hl, Hconn, Hw]).
Qed.

Lemma transaction_block_layout r L :
  preserves (fun w => layout w = L) (transaction_block r).
Proof.
  assert (Hcache : forall id b,
    preserves (fun w => layout w = L)
      (modify (fun w =>
         with_accounts (update_cached_balance id b (accounts w)) w))).
  { intros id b. apply preserves_modify. intros w <-.
    unfold layout. simpl. rewrite update_cached_balance_shape. reflexivity. }
  assert (Hsched : forall td s rcv amount,
    preserves (fun w => layout w = L)
      (create_scheduled_transfer td s rcv amount)).
  { intros. unfold create_scheduled_transfer.
    apply preserves_try_except, preserves_get_cursor_frame;
      [intros ? ? ?; assumption | intros ? ? ?; assumption |].
    apply preserves_bind; [apply preserves_expect | intros ?].
    apply preserves_bind;
      [apply preserves_execute_conn; intros ? ? ?; assumption | intros ?].
    apply preserves_modify. intros ? ?; assumption. }
  assert (Hcredit : forall s rcv amount conv desc ty,
    preserves (fun w => layout w = L)
      (credit_and_record r s rcv amount conv desc ty)).
  { intros. unfold credit_and_record.
    apply preserves_bind;
      [apply preserves_execute_conn; intros ? ? ?; assumption | intros ?].
    apply preserves_bind; [apply preserves_expect | intros ?].
    apply preserves_bind; [apply Hcache | intros ?].
    apply preserves_bind;
      [apply preserves_execute_conn; intros ? ? ?; assumption | intros ?].
    apply preserves_bind;
      [apply preserves_modify; intros ? ?; assumption | intros ?].
    destruct s; [| apply preserves_ret].
    destruct (spawn r); [apply Hsched | apply preserves_ret]. }
  unfold transaction_block.
  apply preserves_bind; [apply preserves_get_world | intros w0].
  apply preserves_bind; [apply preserves_expect | intros sender_account].
  apply preserves_bind; [apply preserves_expect | intros first].
  apply preserves_bind; [apply preserves_lift_result | intros rcv].
  apply preserves_bind; [apply preserves_expect | intros ty].
  apply preserves_bind; [apply preserves_expect | intros desc].
  unfold settle. destruct sender_account as [s|]; [| apply Hcredit].
  destruct (covers _ _).
  - apply preserves_bind;
      [apply preserves_execute_conn; intros ? ? ?; assumption | intros ?].
    apply preserves_bind; [apply preserves_expect | intros ?].
    apply preserves_bind; [apply Hcache | intros ?].
    apply Hcredit.
  - apply preserves_execute_conn; intros ? ? ?; assumption.
Qed.

(** X17. Whatever the draws, the state and the store errors,
    [generate_transaction] never adds, drops or reorders a cache entry,
    and never changes an entry's id, owner, currency or number: only
    balances are written.  The cached users, transaction types and
    rails are not touched either. *)
Theorem generate_transaction_layout r w :
  layout (generate_transaction r w).2 = layout w.
Proof.
  unfold generate_transaction, bind, get_world.
  case_bool_decide; [reflexivity |].
  rewrite try_except_world.
  apply (preserves_get_cursor_frame (fun w' => layout w' = layout w));
    [intros ? ? ?; assumption | intros ? ? ?; assumption | | reflexivity].
  apply transaction_block_layout.
Qed.

(** ** One record for each invocation *)

Lemma hoare_bind_before (I J : world -> Prop) {A B} (m : M A) (k : A -> M B) :
  (forall w, I w -> J w) ->
  preserves I m -> (forall v, hoare I J (k v)) -> hoare I J (bind m k).
Proof.
  intros HIJ Hm Hk w H. unfold bind. specialize (Hm w H).
  destruct (m w) as [[v| |] w']; simpl in *; auto.
  apply Hk, Hm.
Qed.

Lemma hoare_bind_after (I J : world -> Prop) {A B} (m : M A) (k : A -> M B) :
  hoare I J m -> (forall v, preserves J (k v)) -> hoare I J (bind m k).
Proof.
  intros Hm Hk w H. unfold bind. specialize (Hm w H).
  destruct (m w) as [[v| |] w']; simpl in *; auto.
  apply Hk, Hm.
Qed.

Lemma everywhere_mono (P Q : db -> Prop) w :
  (forall d, P d -> Q d) -> everywhere P w -> everywhere Q w.
Proof. intros HPQ [Hs Hp]. split; [apply HPQ, Hs | intros p Hc; apply HPQ, Hp, Hc]. Qed.

Lemma hoare_execute (P Q : db -> Prop) {A} faulty s (q : db -> option (A * db)) :
  (forall d, P d -> Q d) ->
  (forall d v d', P d -> q d = Some (v, d') -> Q d') ->
  hoare (everywhere P) (everywhere Q) (execute faulty s q).
Proof.
  intros HPQ Hq w H. unfold execute.
  destruct (conn w) as [|p|] eqn:Hc; simpl; eauto using everywhere_mono.
  destruct (faulty s); simpl; eauto using everywhere_mono.
  destruct (q p) as [[v p']|] eqn:Hp; simpl; eauto using everywhere_mono.
  destruct H as [Hs Hpend].
  apply everywhere_open; [apply HPQ, Hs |].
  eapply Hq; [apply Hpend; exact Hc | exact Hp].
Qed.

Section OneRecord.
Variable before : list transaction_row.
Variable G : transaction_row -> Prop.

Lemma untouched_at_most_one d :
  db_transactions d = before -> at_most_one before G d.
Proof. intros H. left. exact H. Qed.

Lemma untouched_update_balance id delta :
  stable (fun d => db_transactions d = before) (update_balance id delta).
Proof.
  intros d v d' Hd Hq.
  rewrite (update_balance_transactions _ _ _ _ _ Hq). exact Hd.
Qed.

Lemma insert_transaction_at_most_one t d v d' :
  G t -> db_transactions d = before -> insert_transaction t d = Some (v, d') ->
  at_most_one before G d'.
Proof.
  intros Ht Hd [= _ <-]. right. exists t. simpl. rewrite Hd. auto.
Qed.

Lemma credit_and_record_one_record r sender_account receiver_account amount
    converted_amount description transaction_type :
  G (transaction_record sender_account receiver_account amount
       converted_amount description transaction_type completed) ->
  hoare (everywhere (fun d => db_transactions d = before))
    (everywhere (at_most_one before G))
    (credit_and_record r sender_account receiver_account amount
       converted_amount description transaction_type).
Proof.
  intros Ht. unfold credit_and_record.
  assert (Hmono : forall w, everywhere (fun d => db_transactions d = before) w ->
                            everywhere (at_most_one before G) w)
    by (intros w; apply everywhere_mono, untouched_at_most_one).
  apply hoare_bind_before;
    [exact Hmono | apply preserves_execute, untouched_update_balance
    | intros row].
  apply hoare_bind_before; [exact Hmono | apply preserves_expect | intros b].
  apply hoare_bind_before;
    [exact Hmono
    | apply preserves_modify; intros w H; exact H | intros _].
  apply hoare_bind_after.
  - apply hoare_execute; [apply untouched_at_most_one |].
    intros d v d'. apply insert_transaction_at_most_one, Ht.
  - intros _. apply preserves_bind;
      [apply preserves_modify; intros w H; exact H | intros _].
    destruct sender_account as [s|]; [| apply preserves_ret].
    destruct (spawn r); [| apply preserves_ret].
    apply create_scheduled_transfer_preserves.
    intros t d v d' Hd [= _ <-]. exact Hd.
Qed.

Lemma settle_one_record r sender_account receiver_account amount
    converted_amount description transaction_type :
  G (transaction_record sender_account receiver_account amount
       converted_amount description transaction_type completed) ->
  (is_Some sender_account ->
   G (transaction_record sender_account receiver_account amount
        converted_amount description transaction_type failed)) ->
  hoare (everywhere (fun d => db_transactions d = before))
    (everywhere (at_most_one before G))
    (settle r sender_account receiver_account amount converted_amount
       description transaction_type).
Proof.
  intros Hc Hf. unfold settle.
  assert (Hmono : forall w, everywhere (fun d => db_transactions d = before) w ->
                            everywhere (at_most_one before G) w)
    by (intros w; apply everywhere_mono, untouched_at_most_one).
  destruct sender_account as [s|];
    [| apply credit_and_record_one_record, Hc].
  destruct (covers _ _).
  - apply hoare_bind_before;
      [exact Hmono | apply preserves_execute, untouched_update_balance
      | intros row].
    apply hoare_bind_before; [exact Hmono | apply preserves_expect | intros b].
    apply hoare_bind_before;
      [exact Hmono
      | apply preserves_modify; intros w H'; exact H' | intros _].
    apply credit_and_record_one_record, Hc.
  - apply hoare_execute; [apply untouched_at_most_one |].
    intros d v d'. apply insert_transaction_at_most_one, Hf. eauto.
Qed.
End OneRecord.

Lemma transaction_record_well_formed r pool sender_account first
    receiver_account description transaction_type st :
  pick_sender r pool = Some sender_account ->
  choice pool (receiver_pick r) = Some first ->
  resample pool sender_account first (receiver_repicks r)
    = Ok receiver_account ->
  (sender_account = None -> st = completed) ->
  well_formed_record pool r
    (transaction_record sender_account receiver_account (amount_draw r + 10000)
       (convert sender_account receiver_account (amount_draw r + 10000))
       description transaction_type st).
Proof.
  intros Hs Hf Hr Hst. split; [reflexivity |]. split.
  - exists receiver_account. split; [| reflexivity].
    eapply resample_elem_of, Hr. eapply choice_elem_of, Hf.
  - destruct sender_account as [s|]; simpl; [| auto].
    split; [eapply resample_distinct, Hr |].
    exists s. split; [| reflexivity]. eapply pick_sender_elem_of, Hs.
Qed.

(** X18. Whatever the draws and the store errors, an invocation of
    [generate_transaction] from the driver loop leaves the committed
    [transactions] as they were or with exactly one record more at the
    end; no earlier record is changed or removed.  The record has the
    drawn amount, goes to an entry of the cache, and either comes from
    an entry of the cache with another id (never a transfer of an
    account to itself), or has no sender and is completed. *)
Theorem generate_transaction_one_record r w :
  idle w ->
  at_most_one (db_transactions (store w)) (well_formed_record (accounts w) r)
    (store (generate_transaction r w).2).
Proof.
  intros Hidle.
  set (P := at_most_one (db_transactions (store w))
              (well_formed_record (accounts w) r)).
  assert (Hw : everywhere P w)
    by (apply everywhere_idle; [exact Hidle | left; reflexivity]).
  cut (everywhere P (generate_transaction r w).2); [intros [H _]; exact H |].
  unfold generate_transaction, bind, get_world.
  case_bool_decide; [exact Hw |].
  rewrite try_except_world.
  apply get_cursor_everywhere; [exact Hw |].
  intros w1 H1 (Hacc & _ & _ & _ & Hst & Hconn).
  assert (H0 : everywhere (fun d => db_transactions d = db_transactions (store w)) w1).
  { split; [rewrite Hst; reflexivity |].
    intros p Hp. rewrite Hp in Hconn. unfold idle in Hidle.
    destruct (conn w); [| contradiction |]; injection Hconn as ->; reflexivity. }
  destruct (transaction_block_cases r w1)
    as [[-> | ->] | (s & first & rcv & ty & desc & Hs & Hf & Hr & _ & _ & ->)];
    [exact H1 | exact H1 |].
  rewrite Hacc in Hs, Hf, Hr.
  apply (settle_one_record (db_transactions (store w))
           (well_formed_record (accounts w) r)); [| | exact H0].
  - eapply transaction_record_well_formed; eauto.
  - intros [s' ->]. eapply transaction_record_well_formed; eauto. discriminate.
Qed.

Lemma generate_transaction_one_record_witness :
  at_most_one []
    (well_formed_record (accounts (sample_world 50000 50000 "USD" "EUR"))
       (sample_draws false 2000 true no_faults))
    (store (generate_transaction (sample_draws false 2000 true no_faults)
              (sample_world 50000 50000 "USD" "EUR")).2).
Proof.
  apply (generate_transaction_one_record
           (sample_draws false 2000 true no_faults)
           (sample_world 50000 50000 "USD" "EUR")).
  exact I.
Defined.

(** ** Senders that cannot send *)

(** Lines 222-223: the amount asked of a sender is at least 100.00 more
    than the smaller of 1.00 and its cached balance. *)
Lemma poor_sender_amount r s :
  valid_amount_draws r (Some s) -> balance s < 10100 ->
  balance s < amount_draw r + 10000.
Proof. unfold valid_amount_draws, max_amount. lia. Qed.

(** X19. A sender whose cache entry shows less than 101.00 never sends:
    whatever amount is drawn between 1.00 and its balance, the 100.00
    added to it take the amount over the balance, and without a store
    error the invocation only writes a [failed] record: no balance in
    the store and no cache entry changes, and the record is not counted
    in the statistics. *)
Theorem generate_transaction_poor_sender r w s first receiver_account
    transaction_type description :
  idle w -> (2 <= length (accounts w))%nat -> quiet r ->
  pick_sender r (accounts w) = Some (Some s) ->
  choice (accounts w) (receiver_pick r) = Some first ->
  resample (accounts w) (Some s) first (receiver_repicks r)
    = Ok receiver_account ->
  pick_type r (transaction_types w) (Some s) = Some transaction_type ->
  describe r transaction_type = Some description ->
  valid_amount_draws r (Some s) ->
  balance s < 10100 ->
  let amount := amount_draw r + 10000 in
  let w' := (generate_transaction r w).2 in
  db_transactions (store w') =
    (db_transactions (store w) ++
     [transaction_record (Some s) receiver_account amount
        (convert (Some s) receiver_account amount) description
        transaction_type failed])%list /\
  db_bank_accounts (store w') = db_bank_accounts (store w) /\
  accounts w' = accounts w /\ stats w' = stats w.
Proof.
  intros Hi Hl Hq Hs Hf Hr Ht Hd Hv Hpoor amount w'. subst w'.
  pose proof (poor_sender_amount r s Hv Hpoor) as Hlt.
  rewrite generate_transaction_idle by (auto; apply Hq).
  rewrite try_except_world.
  erewrite transaction_block_run by eassumption.
  unfold settle. rewrite covers_gt by lia.
  erewrite execute_run; [| reflexivity | apply Hq | reflexivity].
  simpl. rewrite (proj1 (Hq Commit)). simpl. auto.
Qed.

Lemma generate_transaction_poor_sender_witness :
  let r := sample_draws false 5000 false no_faults in
  let w := sample_world 9000 9000 "USD" "USD" in
  let w' := (generate_transaction r w).2 in
  db_transactions (store w') =
    [{| tx_sender_account_id := Some 1; tx_receiver_account_id := 2;
        tx_amount := 15000; tx_converted_amount := 15000;
        tx_description := "Money transfer #4321"; tx_type_id := 2;
        tx_status := failed |}] /\
  db_bank_accounts (store w') = db_bank_accounts (store w) /\
  accounts w' = accounts w /\ stats w' = stats w.
Proof.
  apply (generate_transaction_poor_sender
           (sample_draws false 5000 false no_faults)
           (sample_world 9000 9000 "USD" "USD")
           (Account 1 (Some 7) 9000 (Some "USD") "VISA000001")
           (Account 2 (Some 8) 1000 (Some "USD") "VISA000002")
           (Account 2 (Some 8) 1000 (Some "USD") "VISA000002")
           (2, "transfer") "Money transfer #4321");
    first [ exact I | reflexivity | simpl; lia
          | unfold valid_amount_draws; simpl; lia
          | intros s; split; reflexivity ].
Defined.

(** ** The cache after a committed transfer *)



(** ** Back to the driver loop *)

Lemma get_cursor_ends {A} faulty (body : M A) w :
  (forall w1, entered w w1 -> (body w1).1 <> Hang) ->
  (get_cursor faulty body w).1 <> Hang.
Proof.
  intros Hb. unfold get_cursor, enter.
  assert (Hl : forall w1, entered w w1 -> (leave faulty (body w1)).1 <> Hang).
  { intros w1 He. specialize (Hb w1 He). unfold leave.
    destruct (body w1) as [[v| |] w2]; simpl in *; try congruence.
    destruct (conn w2); try discriminate.
    destruct (faulty Commit); discriminate. }
  destruct (conn w) eqn:Hc; [| apply Hl; unfold entered; rewrite Hc; auto 10 |];
    (destruct (faulty Connect);
     [discriminate | apply Hl; unfold entered; simpl; rewrite Hc; auto 10]).
Qed.

Lemma try_except_returns (m : M unit) w :
  (m w).1 <> Hang -> (try_except m tt w).1 = Ok tt.
Proof.
  unfold try_except. destruct (m w) as [[[]| |] w']; simpl; congruence.
Qed.

Lemma create_scheduled_transfer_terminates r sender_account receiver_account
    amount :
  terminates (create_scheduled_transfer r sender_account receiver_account amount).
Proof.
  unfold create_scheduled_transfer.
  apply terminates_try_except, terminates_get_cursor.
  repeat first
    [ apply terminates_expect | apply terminates_modify
    | apply terminates_execute
    | apply terminates_bind; [| intros ?] ].
Qed.

Lemma settle_terminates r sender_account receiver_account amount
    converted_amount description transaction_type :
  terminates
    (settle r sender_account receiver_account amount converted_amount
       description transaction_type).
Proof.
  assert (Hcredit : terminates
    (credit_and_record r sender_account receiver_account amount
       converted_amount description transaction_type)).
  { unfold credit_and_record.
    repeat first
      [ apply terminates_expect | apply terminates_modify
      | apply terminates_execute
      | apply terminates_bind; [| intros ?] ].
    destruct sender_account; [| apply terminates_ret].
    destruct (spawn r);
      [apply create_scheduled_transfer_terminates | apply terminates_ret]. }
  unfold settle. destruct sender_account as [s|]; [| exact Hcredit].
  destruct (covers _ _); [| apply terminates_execute].
  repeat first
    [ exact Hcredit | apply terminates_expect | apply terminates_modify
    | apply terminates_execute
    | apply terminates_bind; [| intros ?] ].
Qed.

Lemma transaction_block_ends r w :
  loop_ends r w -> (transaction_block r w).1 <> Hang.
Proof.
  intros Hloop.
  destruct (pick_sender r (accounts w)) as [sender_account|] eqn:Hs;
    [| unfold transaction_block, bind, get_world; rewrite Hs; discriminate].
  destruct (choice (accounts w) (receiver_pick r)) as [first|] eqn:Hf;
    [| unfold transaction_block, bind, get_world; rewrite Hs; simpl;
       rewrite Hf; discriminate].
  specialize (Hloop sender_account first Hs Hf).
  unfold transaction_block, bind, get_world, lift_result.
  rewrite Hs. simpl. rewrite Hf. simpl.
  destruct (resample _ _ _ _) as [receiver_account| |]; [| discriminate | congruence].
  destruct (pick_type r _ _) as [transaction_type|]; simpl; [| discriminate].
  destruct (describe r transaction_type) as [description|]; simpl;
    [| discriminate].
  apply settle_terminates.
Qed.

(** X21. [update_achievements] always comes back to the driver loop:
    whatever the state and the store errors, it returns without an
    exception and leaves no connection open. *)
Theorem update_achievements_returns faulty w :
  (update_achievements faulty w).1 = Ok tt /\
  idle (update_achievements faulty w).2.
Proof.
  assert (Hb : terminates (achievements_block faulty)).
  { unfold achievements_block.
    apply terminates_bind; [apply terminates_execute | intros users_stats].
    apply terminates_for_each. intros user.
    unfold grant.
    repeat first
      [ apply terminates_execute | apply terminates_when
      | apply terminates_bind; [| intros ?] ]. }
  pose proof (terminates_get_cursor faulty _ Hb w) as Hg.
  unfold update_achievements. split.
  - apply try_except_returns, Hg.
  - rewrite try_except_world. apply get_cursor_closes, Hg.
Qed.

(** X22. [generate_transaction] comes back to the driver loop whenever
    the loop that draws the receiver again comes to an end: whatever the
    other draws and the store errors, it returns without an exception
    and leaves no connection open, so that the next operation starts
    with no transaction open. *)
Theorem generate_transaction_returns r w :
  idle w -> loop_ends r w ->
  (generate_transaction r w).1 = Ok tt /\ idle (generate_transaction r w).2.
Proof.
  intros Hi Hloop. unfold generate_transaction, bind, get_world.
  case_bool_decide; [split; [reflexivity | exact Hi] |].
  assert (Hg : (get_cursor (faulty r) (transaction_block r) w).1 <> Hang).
  { apply get_cursor_ends. intros w1 (Hacc & _).
    apply transaction_block_ends. unfold loop_ends. rewrite Hacc. exact Hloop. }
  split.
  - apply try_except_returns, Hg.
  - rewrite try_except_world. apply get_cursor_closes, Hg.
Qed.

Lemma generate_transaction_returns_witness :
  (generate_transaction (sample_draws false 2000 true insert_fails)
     (sample_world 50000 50000 "USD" "USD")).1 = Ok tt /\
  idle (generate_transaction (sample_draws false 2000 true insert_fails)
          (sample_world 50000 50000 "USD" "USD")).2.
Proof.
  apply (generate_transaction_returns
           (sample_draws false 2000 true insert_fails)
           (sample_world 50000 50000 "USD" "USD")).
  - exact I.
  - intros sender_account first Hs Hf.
    injection Hs as <-. injection Hf as <-. discriminate.
Defined.

(** ** Rounding to two places *)

(** X23. [round(x, 2)] as the code uses it (lines 158, 222-223, 247):
    the result is a decimal with two places nearest to [x], the even one
    when two are equally near, and it is the only decimal of which that
    holds. *)
Theorem round2_characterised x z :
  rounded_to_hundredths x z <-> z = round2 x.
Proof.
  split.
  - intros Hz. eapply rounded_to_hundredths_unique; [exact Hz |].
    apply round2_rounded.
  - intros ->. apply round2_rounded.
Qed.
